(** * StaticCodeMetrics: the distance from the Main Sequence, and the
      include matrix it rests on

    A shallow embedding of [metrics/distance_ia.py] and of the
    include-matrix pipeline exercised by [test/test_metrics], with the
    properties the specification states about them.

    Numbers are what the program computes with: pandas series of
    [float64], embedded as Rocq's primitive binary64 [float].  Their
    arithmetic is IEEE 754 round-to-nearest-even, specified by
    [SpecFloat] through the [FloatAxioms] of the standard library. *)

From Stdlib Require Import ZArith List String Ascii Bool Lia Floats.
Import ListNotations.

Set Warnings "-inexact-float".

(** ** Outcome of a Python call *)

Module Py.

Inductive exn : Set :=
| TypeError
| AttributeError.

Inductive outcome (A : Type) : Type :=
| Returned (a : A)
| Raised (e : exn).

Arguments Returned {A} a.
Arguments Raised {A} e.

Definition bind {A B : Type} (c : outcome A) (k : A -> outcome B) : outcome B :=
  match c with
  | Returned a => k a
  | Raised e => Raised e
  end.

End Py.

Notation "x <- c ;; k" := (Py.bind c (fun x => k))
  (at level 61, c at next level, right associativity).

(** ** The fragment of pandas and numpy the program uses *)

Module Pandas.

(** Index labels: the default [RangeIndex] carries integers, the
    metrics carry file names. *)
Inductive label : Set :=
| LInt (n : Z)
| LStr (s : string).

Definition label_eqb (a b : label) : bool :=
  match a, b with
  | LInt n, LInt m => Z.eqb n m
  | LStr s, LStr t => String.eqb s t
  | _, _ => false
  end.

(** A series is an ordered table of labelled [float64] values. *)
Definition Series : Set := list (label * float).

Definition index (s : Series) : list label := map fst s.
Definition values (s : Series) : list float := map snd s.
Definition size (s : Series) : nat := List.length s.

(** [pd.Series(np.array(vs))]: the default index [0 .. len - 1]. *)
Definition arange (n : nat) : list Z := map Z.of_nat (seq 0 n).

Definition of_values (vs : list float) : Series :=
  combine (map LInt (arange (List.length vs))) vs.

Definition of_labelled (ls : list label) (vs : list float) : Series :=
  combine ls vs.

(** [Index.equals]: same labels in the same order. *)
Fixpoint index_equals (a b : list label) : bool :=
  match a, b with
  | [], [] => true
  | x :: a', y :: b' => label_eqb x y && index_equals a' b'
  | _, _ => false
  end.

Fixpoint get (s : Series) (l : label) : option float :=
  match s with
  | [] => None
  | (k, v) :: s' => if label_eqb k l then Some v else get s' l
  end.

(** [Series.reindex]: a label the series lacks is filled with NaN. *)
Definition reindex (s : Series) (idx : list label) : Series :=
  map (fun l => (l, match get s l with Some v => v | None => nan end)) idx.

(** Element-wise operations against a scalar, and [abs]. *)
Definition sub_scalar (s : Series) (c : float) : Series :=
  map (fun lv => (fst lv, (snd lv - c)%float)) s.

Definition abs (s : Series) : Series :=
  map (fun lv => (fst lv, PrimFloat.abs (snd lv))) s.

Section Alignment.

(** [Index.union], the outer join of two indexes.  Which order it
    lists the labels in (sorted where the labels compare, left
    then right otherwise) varies with the labels and the pandas
    release; the program is embedded for any of them. *)
Variable index_union : list label -> list label -> list label.

(** [Series.align]: equal indexes are kept as they are, otherwise
    both operands are reindexed over the union.  Reindexing looks a
    label up once, which is what pandas does for indexes without
    repeated labels; the statements about unequal indexes below
    assume such indexes. *)
Definition align (a b : Series) : Series * Series :=
  if index_equals (index a) (index b) then (a, b)
  else
    let idx := index_union (index a) (index b) in
    (reindex a idx, reindex b idx).

(** [a + b] on two series: align, then add value by value. *)
Definition add (a b : Series) : Series :=
  let (a', b') := align a b in
  map (fun xy => (fst (fst xy), (snd (fst xy) + snd (snd xy))%float))
      (combine a' b').

End Alignment.

(** One way [Index.union] can list the labels: those of the left
    index, then the new ones of the right. *)
Definition mem (l : label) (ls : list label) : bool :=
  existsb (label_eqb l) ls.

Fixpoint dedup (ls : list label) : list label :=
  match ls with
  | [] => []
  | l :: ls' => l :: filter (fun k => negb (label_eqb l k)) (dedup ls')
  end.

Definition union_left_first (a b : list label) : list label :=
  dedup (a ++ b).

End Pandas.

(** ** [metrics/distance_ia.py] *)

Module DistanceIA.

Import Py Pandas.

(** The four attributes [__init__] creates. *)
Record t : Set := mk {
  _dir_path : string;
  _instability_metric : option Series;
  _abstractness_metric : option Series;
  _distance : option Series
}.

Definition __init__ (dir_path : string) : t :=
  {| _dir_path := dir_path;
     _instability_metric := None;
     _abstractness_metric := None;
     _distance := None |}.

(** What [plot_distance] hands to [matplotlib.pyplot].  The calls are
    recorded, as under the patches of [Test_DistanceIA.py]; what the
    plotting library does with them is outside the embedding. *)
Inductive plt_call : Set :=
| plt_plot (ind : list Z) (y : Series) (marker linestyle : string)
| plt_xticks (ind : list Z) (labels : list label) (rotation : Z) (ha : string)
| plt_ylabel (text : string) (fontsize : Z)
| plt_show.

Section Methods.

Variable index_union : list label -> list label -> list label.

(** [dsu.get_instability_and_abstractness_metric], the upstream
    collaborator: instability first, abstractness second. *)
Variable get_instability_and_abstractness_metric : string -> Series * Series.

(** The formula of [_calculate_distance] on two series. *)
Definition distance (a i : Series) : Series :=
  abs (sub_scalar (add index_union a i) 1%float).

(** [self._distance = abs(self._abstractness_metric +
    self._instability_metric - 1)].  An attribute still [None] makes
    the sum raise as soon as there is a value to add it to; against a
    series without values nothing is added and the result is empty. *)
Definition _calculate_distance (self : t) : outcome t :=
  match _abstractness_metric self, _instability_metric self with
  | Some a, Some i =>
      Returned {| _dir_path := _dir_path self;
                  _instability_metric := _instability_metric self;
                  _abstractness_metric := _abstractness_metric self;
                  _distance := Some (distance a i) |}
  | Some s, None | None, Some s =>
      match s with
      | [] =>
          Returned {| _dir_path := _dir_path self;
                      _instability_metric := _instability_metric self;
                      _abstractness_metric := _abstractness_metric self;
                      _distance := Some [] |}
      | _ :: _ => Raised TypeError
      end
  | None, None => Raised TypeError
  end.

Definition plot_distance (self : t) : outcome (t * list plt_call) :=
  let (i, a) := get_instability_and_abstractness_metric (_dir_path self) in
  let self := {| _dir_path := _dir_path self;
                 _instability_metric := Some i;
                 _abstractness_metric := Some a;
                 _distance := _distance self |} in
  self <- _calculate_distance self ;;
  match _distance self, _instability_metric self with
  | Some d, Some i =>
      let ind := arange (size d) in
      Returned (self,
                [ plt_plot ind d "x" "None";
                  plt_xticks ind (index i) 45 "right";
                  plt_ylabel "[D]istance" 18;
                  plt_show ])
  | _, _ => Raised AttributeError
  end.

End Methods.

(** The series of [Test_DistanceIA.py]. *)
Definition mocked_i_metric : Series :=
  of_values [0.6; 0.0; 0.1; 1.0; 0.0; 0.5]%float.
Definition mocked_a_metric : Series :=
  of_values [0.3; 1.0; 0.0; 1.0; 0.8; 0.2]%float.
Definition expected_i_index : list label :=
  [LStr "a"; LStr "b"; LStr "c"; LStr "d"; LStr "e"; LStr "f"].
Definition labelled_i_metric : Series :=
  of_labelled expected_i_index [0.6; 0.0; 0.1; 1.0; 0.0; 0.5]%float.

End DistanceIA.

(** ** The include matrix and the instability metric *)

Module InstabilityMetric.

Import Pandas.
Local Open Scope string_scope.
Local Open Scope list_scope.

(** *** Dependency extractor *)

Definition newline : ascii := "010"%char.
Definition dquote : ascii := "034"%char.
Definition langle : ascii := "<"%char.
Definition rangle : ascii := ">"%char.

(** Blanks that may precede a directive on its line. *)
Definition is_space (c : ascii) : bool :=
  existsb (Ascii.eqb c) [" "; "009"; "011"; "012"; "013"]%char.

Fixpoint lstrip (s : string) : string :=
  match s with
  | String c s' => if is_space c then lstrip s' else s
  | EmptyString => s
  end.

Fixpoint strip_prefix (p s : string) : option string :=
  match p, s with
  | EmptyString, _ => Some s
  | String a p', String b s' =>
      if Ascii.eqb a b then strip_prefix p' s' else None
  | String _ _, EmptyString => None
  end.

(** The text before the first [d], when [d] occurs. *)
Fixpoint take_until (d : ascii) (s : string) : option string :=
  match s with
  | EmptyString => None
  | String c s' =>
      if Ascii.eqb c d then Some EmptyString
      else option_map (String c) (take_until d s')
  end.

Inductive include_ref : Set :=
| UserLib (name : string)
| StdLib (name : string).

(** Modelled from the spec: the source of the extractor
    ([metrics/instability_metric.py]) is not among the files; the
    spec gives the two forms of a directive, a quoted name for a user
    include and a bracketed one for a standard-library include, after
    any leading blanks, the name being the text between the
    delimiters. *)
Definition match_include (line : string) : option include_ref :=
  match strip_prefix "#include " (lstrip line) with
  | Some (String c rest) =>
      if Ascii.eqb c dquote then option_map UserLib (take_until dquote rest)
      else if Ascii.eqb c langle then option_map StdLib (take_until rangle rest)
      else None
  | _ => None
  end.

(** The lines of a text, cut at every line feed. *)
Fixpoint split_lines (s : string) : list string :=
  match s with
  | EmptyString => [EmptyString]
  | String c s' =>
      if Ascii.eqb c newline then EmptyString :: split_lines s'
      else
        match split_lines s' with
        | l :: ls => String c l :: ls
        | [] => [String c EmptyString]
        end
  end.

(** Modelled from the spec: both lists keep the order of the lines
    and every repetition; a line of neither form adds nothing. *)
Fixpoint classify (lines : list string) : list string * list string :=
  match lines with
  | [] => ([], [])
  | l :: ls =>
      let (user, stl) := classify ls in
      match match_include l with
      | Some (UserLib n) => (n :: user, stl)
      | Some (StdLib n) => (user, n :: stl)
      | None => (user, stl)
      end
  end.

(** The files at hand: a path that cannot be read has no text. *)
Definition filesystem : Set := string -> option string.

Definition read_file (fs : filesystem) (path : string) : option string :=
  if String.eqb path "" then None else fs path.

(** Modelled from the spec: the warning the extractor emits where a
    file cannot be read.  The words of its message are left out: the
    source is absent, and the spec and the test [testEmptyFilePath]
    word them differently. *)
Inductive warning : Set :=
| UnreadableFile.

(** Modelled from the spec: [_get_includes_of_file] never raises; it
    returns the two lists and the warnings it emitted. *)
Definition _get_includes_of_file (fs : filesystem) (path : string)
  : (list string * list string) * list warning :=
  match read_file fs path with
  | Some text => (classify (split_lines text), [])
  | None => (([], []), [UnreadableFile])
  end.

(** *** Dependency matrix *)

(** A labelled table of integers: [data] holds one list of cells per
    row, one cell per column. *)
Record DataFrame : Set := frame {
  index : list string;
  columns : list string;
  data : list (list Z)
}.

Definition shape (m : DataFrame) : nat * nat :=
  (List.length (data m), List.length (columns m)).

Definition zeros (n k : nat) : list (list Z) := repeat (repeat 0%Z k) n.

Definition cell (m : DataFrame) (i k : nat) : Z :=
  nth k (nth i (data m) []) 0%Z.

Definition well_shaped (m : DataFrame) : Prop :=
  Forall (fun r => List.length r = List.length (columns m)) (data m).

Section Builder.

Variable fs : filesystem.

(** [FileUtility.extract_filename], the label of a path. *)
Variable extract_filename : string -> string.

(** Modelled from the spec: step 1 of the builder, an [n] by [n]
    table of zeros labelled with the files in listing order. *)
Definition _create_user_include_matrix (files : list string) : DataFrame :=
  let labels := map extract_filename files in
  {| index := labels;
     columns := labels;
     data := zeros (List.length files) (List.length files) |}.

Definition has_column (m : DataFrame) (name : string) : bool :=
  existsb (String.eqb name) (columns m).

Definition add_column (m : DataFrame) (name : string) : DataFrame :=
  {| index := index m;
     columns := columns m ++ [name];
     data := map (fun r => r ++ [0%Z]) (data m) |}.

(** Modelled from the spec: a name with no column yet gets a new
    column of zeros. *)
Definition add_if_new (m : DataFrame) (name : string) : DataFrame :=
  if has_column m name then m else add_column m name.

Definition add_stl_of_file (m : DataFrame) (file : string)
  : DataFrame * list warning :=
  let '((_, stl), w) := _get_includes_of_file fs file in
  (fold_left add_if_new stl m, w).

(** Modelled from the spec: the pass that grows the matrix, file by
    file in listing order. *)
Fixpoint _add_stl_includes (files : list string) (m : DataFrame)
  : DataFrame * list warning :=
  match files with
  | [] => (m, [])
  | f :: files' =>
      let (m', w) := add_stl_of_file m f in
      let (m'', w') := _add_stl_includes files' m' in
      (m'', w ++ w')
  end.

(** [matrix[i][name] = 1] on one row: every cell under a column
    labelled [name]. *)
Fixpoint mark (cols : list string) (name : string) (row : list Z) : list Z :=
  match row, cols with
  | v :: row', c :: cols' =>
      (if String.eqb c name then 1%Z else v) :: mark cols' name row'
  | _, _ => row
  end.

Fixpoint update_row (i : nat) (f : list Z -> list Z) (rows : list (list Z))
  : list (list Z) :=
  match rows, i with
  | [], _ => []
  | r :: rs, O => f r :: rs
  | r :: rs, S i' => r :: update_row i' f rs
  end.

Definition record_edge (i : nat) (m : DataFrame) (name : string) : DataFrame :=
  {| index := index m;
     columns := columns m;
     data := update_row i (mark (columns m) name) (data m) |}.

(** Modelled from the spec: the pass that fills the known columns;
    file [i] marks the columns its two lists name. *)
Fixpoint fill_from (i : nat) (files : list string) (m : DataFrame)
  : DataFrame * list warning :=
  match files with
  | [] => (m, [])
  | f :: files' =>
      let '((user, stl), w) := _get_includes_of_file fs f in
      let m' := fold_left (record_edge i) (user ++ stl) m in
      let (m'', w') := fill_from (S i) files' m' in
      (m'', w ++ w')
  end.

Definition _fill_include_matrix (files : list string) (m : DataFrame)
  : DataFrame * list warning :=
  fill_from 0 files m.

(** Growth comes before the edges are recorded, as the tests of the
    two passes have it. *)
Definition build (files : list string) : DataFrame * list warning :=
  let m0 := _create_user_include_matrix files in
  let (m1, w1) := _add_stl_includes files m0 in
  let (m2, w2) := _fill_include_matrix files m1 in
  (m2, w1 ++ w2).

End Builder.

(** The external names of a scan in first-discovery order: a name is
    kept where it first occurs. *)
Fixpoint firsts (names : list string) : list string :=
  match names with
  | [] => []
  | n :: ns => n :: filter (fun k => negb (String.eqb n k)) (firsts ns)
  end.

Definition std_names (fs : filesystem) (files : list string) : list string :=
  flat_map (fun f => snd (fst (_get_includes_of_file fs f))) files.

Definition new_names (known names : list string) : list string :=
  firsts (filter (fun n => negb (existsb (String.eqb n) known)) names).

(** *** Instability *)

Definition count_ones (l : list Z) : Z :=
  Z.of_nat (count_occ Z.eq_dec l 1%Z).

(** Modelled from the spec: fan-out counts the ones of row [i] over
    all columns, fan-in the ones of column [i] over the rows, as the
    component design words them; the cell a file has under its own
    column is a cell of both. *)
Definition fan_out (m : DataFrame) (i : nat) : Z :=
  count_ones (nth i (data m) []).

Definition fan_in (m : DataFrame) (i : nat) : Z :=
  count_ones (map (fun r => nth i r 0%Z) (data m)).

(** An integer as a [float64], rounded to nearest. *)
Definition Z2float (z : Z) : float :=
  SF2Prim (binary_normalize prec emax z 0 false).

(** Modelled from the spec: fan-out over fan-in plus fan-out, and 0
    where both are 0. *)
Definition ratio (fi fo : Z) : float :=
  if (fi + fo =? 0)%Z then 0%float
  else (Z2float fo / Z2float (fi + fo))%float.

Definition instability (m : DataFrame) : Series :=
  map (fun i => (LStr (nth i (index m) ""), ratio (fan_in m i) (fan_out m i)))
      (seq 0 (List.length (data m))).

(** *** Sample inputs *)

(** A line with a directive: blanks, the keyword, the delimited name. *)
Definition user_line (ws name : string) : string :=
  (ws ++ "#include " ++ String dquote (name ++ String dquote ""))%string.

Definition std_line (ws name : string) : string :=
  (ws ++ "#include " ++ String langle (name ++ String rangle ""))%string.

Definition source_cpp : string :=
  (std_line "" "vector" ++ String newline
     (user_line "" "helper.h" ++ String newline
        "int main() { return 0; }"))%string.

Definition sample_fs : filesystem :=
  fun path =>
    if String.eqb path "source.cpp" then Some source_cpp
    else if String.eqb path "lib1.hpp" then Some (std_line "  " "vector")
    else if String.eqb path "lib2.hpp" then Some (user_line "" "lib1.hpp")
    else None.

Definition sample_files : list string := ["lib1.hpp"; "lib2.hpp"; "source.cpp"].

(** The three files of [testCheckMatrixIfIncludes], which the spec
    takes up as its worked scenario. *)
Definition scenario_fs : filesystem :=
  fun path =>
    if String.eqb path "file0" then Some (std_line "" "std_lib")
    else if String.eqb path "file1" then Some (user_line "" "file1")
    else if String.eqb path "file2" then
      Some (user_line "" "file1" ++ String newline
              (user_line "" "file2" ++ String newline (std_line "" "std_out")))%string
    else None.

Definition scenario_files : list string := ["file0"; "file1"; "file2"].

End InstabilityMetric.

(** ** Vocabulary of the statements *)

Module Binary64.

Local Open Scope Z_scope.

(** What [j] right shifts leave of [m0]: the quotient, and a remainder
    that the round and sticky bits witness. *)
Definition shifted (m0 : Z) (j : Z) (r : shr_record) : Prop :=
  exists rem, 0 <= rem < 2 ^ j /\ m0 = shr_m r * 2 ^ j + rem /\ 0 <= shr_m r /\
              (shr_r r || shr_s r = true -> 0 < rem).

(** A zero of sign [s], or a finite number of sign [s] and of
    magnitude at most [2 ^ k]. *)
Definition rounded (s : bool) (k : Z) (x : spec_float) : Prop :=
  x = S754_zero s \/ exists m e, x = S754_finite s m e /\ Zpos m <= 2 ^ (k - e).

(** The number one. *)
Definition SF1 : spec_float := S754_finite false 4503599627370496 (-52).

(** A zero, or a positive finite number that is at most [2 ^ k]. *)
Definition nonneg_le (k : Z) (x : spec_float) : Prop :=
  (exists s, x = S754_zero s) \/
  exists m e, x = S754_finite false m e /\ Zpos m <= 2 ^ (k - e).

(** A [float64] of the closed interval from 0 to 1. *)
Definition in_unit (x : float) : Prop :=
  (0 <=? x)%float = true /\ (x <=? 1)%float = true.

End Binary64.

Module Statement.

Import Py Pandas DistanceIA.

(** Exchange the values the two series hold at position [k]. *)
Fixpoint swap_at (k : nat) (a i : Series) : Series * Series :=
  match a, i, k with
  | (la, x) :: a', (li, y) :: i', O => ((la, y) :: a', (li, x) :: i')
  | p :: a', q :: i', S k' =>
      let (a'', i'') := swap_at k' a' i' in (p :: a'', q :: i'')
  | _, _, _ => (a, i)
  end.

(** The distance value by value: [|A + I - 1|] at every position,
    under the label of the position. *)
Definition elementwise (a i : Series) : Series :=
  map (fun xy => (fst (fst xy),
                  PrimFloat.abs (snd (fst xy) + snd (snd xy) - 1)%float))
      (combine a i).

(** The values a call left in [_distance], if it returned. *)
Definition distance_values (r : outcome t) : option (list float) :=
  match r with
  | Returned self => option_map values (_distance self)
  | Raised _ => None
  end.

(** [==] on every pair of values of two lists of the same length. *)
Fixpoint all_eqb (xs ys : list float) : bool :=
  match xs, ys with
  | [], [] => true
  | x :: xs', y :: ys' => (x =? y)%float && all_eqb xs' ys'
  | _, _ => false
  end.

(** Two lists of the same length that differ by at most [eps] at
    every position. *)
Fixpoint all_close (eps : float) (xs ys : list float) : bool :=
  match xs, ys with
  | [], [] => true
  | x :: xs', y :: ys' =>
      (PrimFloat.abs (x - y) <=? eps)%float && all_close eps xs' ys'
  | _, _ => false
  end.

(** The object of [testCorrectReturnValue] once both metrics are
    patched in. *)
Definition patched (i a : Series) : t :=
  {| _dir_path := "";
     _instability_metric := Some i;
     _abstractness_metric := Some a;
     _distance := None |}.

(** The blanks that may stand before a directive: space, tab, vertical
    tab, form feed, carriage return. *)
Definition blank (c : ascii) : Prop :=
  c = " "%char \/ c = "009"%char \/ c = "011"%char \/ c = "012"%char
  \/ c = "013"%char.

Fixpoint blanks (s : string) : Prop :=
  match s with
  | EmptyString => True
  | String c s' => blank c /\ blanks s'
  end.

Fixpoint lacks (d : ascii) (s : string) : bool :=
  match s with
  | EmptyString => true
  | String c s' => negb (Ascii.eqb c d) && lacks d s'
  end.

(** A line of the form [#include "name"]: blanks, the keyword, and
    [name] between the first two quotes. *)
Definition user_form (line name : string) : Prop :=
  exists ws rest,
    blanks ws
    /\ lacks InstabilityMetric.dquote name = true
    /\ line = (ws ++ "#include "
                  ++ String InstabilityMetric.dquote
                       (name ++ String InstabilityMetric.dquote rest))%string.

(** A line of the form [#include <name>]. *)
Definition std_form (line name : string) : Prop :=
  exists ws rest,
    blanks ws
    /\ lacks InstabilityMetric.rangle name = true
    /\ line = (ws ++ "#include "
                  ++ String InstabilityMetric.langle
                       (name ++ String InstabilityMetric.rangle rest))%string.

(** The two lists a sequence of lines calls for: the names of the
    lines of either form, in the order of the lines and with their
    repetitions; a line of neither form adds nothing. *)
Inductive Classified : list string -> list string -> list string -> Prop :=
| Classified_nil : Classified [] [] []
| Classified_user (l n : string) (ls user stl : list string) :
    user_form l n -> Classified ls user stl ->
    Classified (l :: ls) (n :: user) stl
| Classified_std (l n : string) (ls user stl : list string) :
    std_form l n -> Classified ls user stl ->
    Classified (l :: ls) user (n :: stl)
| Classified_other (l : string) (ls user stl : list string) :
    (forall n, ~ user_form l n) -> (forall n, ~ std_form l n) ->
    Classified ls user stl ->
    Classified (l :: ls) user stl.

(** The text with these lines, a line feed between any two. *)
Fixpoint join_lines (ls : list string) : string :=
  match ls with
  | [] => EmptyString
  | [l] => l
  | l :: ls' => (l ++ String InstabilityMetric.newline (join_lines ls'))%string
  end.

(** The names file [f] refers to, user includes first. *)
Definition names_of (fs : InstabilityMetric.filesystem) (f : string) : list string :=
  let r := fst (InstabilityMetric._get_includes_of_file fs f) in
  fst r ++ snd r.

(** The tick positions and the tick labels handed to [plt.xticks]. *)
Fixpoint xticks_of (calls : list plt_call) : option (list Z * list label) :=
  match calls with
  | [] => None
  | plt_xticks ind labels _ _ :: _ => Some (ind, labels)
  | _ :: calls' => xticks_of calls'
  end.

(** The ones of row [i], counted cell by cell, and those of column
    [i], counted row by row. *)
Definition ones_in_row (m : InstabilityMetric.DataFrame) (i : nat) : nat :=
  List.length
    (filter (fun k => Z.eqb (InstabilityMetric.cell m i k) 1)
            (seq 0 (List.length (nth i (InstabilityMetric.data m) [])))).

Definition ones_in_column (m : InstabilityMetric.DataFrame) (i : nat) : nat :=
  List.length
    (filter (fun j => Z.eqb (InstabilityMetric.cell m j i) 1)
            (seq 0 (List.length (InstabilityMetric.data m)))).

(** The conversion of a machine integer to [float64]. *)
Definition float_of_int (z : Z) : float :=
  PrimFloat.of_uint63 (Uint63.of_Z z).

(** A value that is NaN or not below zero. *)
Definition nan_or_nonneg (v : float) : Prop :=
  v = nan \/ (0 <=? v)%float = true.

End Statement.

(** * Properties *)

Import Py Pandas DistanceIA Binary64 Statement.

(** ** Binary64 rounding *)

Section Rounding.

Local Open Scope Z_scope.

Lemma digits2_pos_size (p : positive) : digits2_pos p = Pos.size p.
Proof. induction p; simpl; congruence. Qed.

Lemma digits2_lower (p : positive) : 2 ^ (Zpos (digits2_pos p) - 1) <= Zpos p.
Proof.
  rewrite digits2_pos_size.
  induction p as [p IH | p IH |]; simpl Pos.size.
  - rewrite Pos2Z.inj_succ. replace (Z.succ (Zpos (Pos.size p)) - 1) with (Z.succ (Zpos (Pos.size p) - 1)) by lia.
    rewrite Z.pow_succ_r by lia. lia.
  - rewrite Pos2Z.inj_succ. replace (Z.succ (Zpos (Pos.size p)) - 1) with (Z.succ (Zpos (Pos.size p) - 1)) by lia.
    rewrite Z.pow_succ_r by lia. lia.
  - simpl. lia.
Qed.

Lemma digits2_upper (p : positive) : Zpos p < 2 ^ Zpos (digits2_pos p).
Proof.
  rewrite digits2_pos_size.
  induction p as [p IH | p IH |]; simpl Pos.size.
  - rewrite Pos2Z.inj_succ, Z.pow_succ_r by lia. lia.
  - rewrite Pos2Z.inj_succ, Z.pow_succ_r by lia. lia.
  - simpl. lia.
Qed.

Lemma iter_xO (d m : positive) : Zpos (Pos.iter xO m d) = Zpos m * 2 ^ Zpos d.
Proof.
  induction d as [|d IH] using Pos.peano_ind.
  - simpl. lia.
  - rewrite Pos.iter_succ, Pos2Z.inj_succ, Z.pow_succ_r by lia.
    rewrite Pos2Z.inj_xO, IH. lia.
Qed.

Lemma iter_pos_inv {A : Type} (f : A -> A) (P : Z -> A -> Prop) :
  (forall j x, 0 <= j -> P j x -> P (j + 1) (f x)) ->
  forall p j x, 0 <= j -> P j x -> P (j + Zpos p) (iter_pos f p x).
Proof.
  intros step. induction p as [p IH | p IH |]; intros j x Hj Hx; simpl.
  - replace (j + Zpos p~1) with (((j + 1) + Zpos p) + Zpos p) by lia.
    apply IH; [lia|]. apply IH; [lia|]. now apply step.
  - replace (j + Zpos p~0) with ((j + Zpos p) + Zpos p) by lia.
    apply IH; [lia|]. now apply IH.
  - now apply step.
Qed.

Lemma shr_1_shifted (m0 j : Z) (r : shr_record) :
  0 <= j -> shifted m0 j r -> shifted m0 (j + 1) (shr_1 r).
Proof.
  intros Hj (rem & Hrem & Hm & Hq & Hrs).
  assert (HX : 0 < 2 ^ j) by (apply Z.pow_pos_nonneg; lia).
  assert (HP : 2 ^ (j + 1) = 2 * 2 ^ j) by (rewrite Z.pow_add_r by lia; lia).
  unfold shifted. rewrite HP. clear HP.
  remember (2 ^ j) as X eqn:EX. clear EX.
  destruct r as [m rb sb]; cbn [shr_m shr_r shr_s] in *.
  assert (Hor : forall b, b || (rb || sb) = true -> b = true \/ 0 < rem).
  { intros [|] H; [now left | right; now apply Hrs]. }
  destruct m as [| [p | p |] | p]; cbn [shr_1 shr_m shr_r shr_s]; try lia.
  - exists rem. repeat split; try lia.
    intros H. destruct (Hor _ H); [discriminate | lia].
  - exists (X + rem). repeat split; try lia.
  - exists rem. repeat split; try lia.
    intros H. destruct (Hor _ H); [discriminate | lia].
  - exists (X + rem). repeat split; try lia.
Qed.

Lemma shr_shifted (m0 e n : Z) :
  0 <= m0 ->
  exists r, shr (Build_shr_record m0 false false) e n = (r, e + Z.max n 0)
            /\ shifted m0 (Z.max n 0) r.
Proof.
  intros H0.
  assert (Hbase : shifted m0 0 (Build_shr_record m0 false false)).
  { exists 0. cbn [shr_m shr_r shr_s]. repeat split; try lia; discriminate. }
  destruct n as [| p | p]; cbn [shr].
  - exists (Build_shr_record m0 false false). split; [f_equal; lia | exact Hbase].
  - eexists; split; [reflexivity|].
    replace (Z.max (Zpos p) 0) with (0 + Zpos p) by lia.
    apply iter_pos_inv; [apply shr_1_shifted | lia | exact Hbase].
  - exists (Build_shr_record m0 false false). split; [f_equal; lia | exact Hbase].
Qed.


Lemma round_nearest_even_cases (r : shr_record) :
  let m := round_nearest_even (shr_m r) (loc_of_shr_record r) in
  m = shr_m r \/ (m = shr_m r + 1 /\ shr_r r || shr_s r = true).
Proof.
  destruct r as [m [|] [|]]; cbn; auto.
  destruct (Z.even m); auto.
Qed.

Lemma pow2_split (a b : Z) : 0 <= a -> 0 <= b -> 2 ^ (a + b) = 2 ^ a * 2 ^ b.
Proof. intros. now rewrite Z.pow_add_r. Qed.

Lemma pow2_pos (a : Z) : 0 <= a -> 0 < 2 ^ a.
Proof. intros. apply Z.pow_pos_nonneg; lia. Qed.

Lemma le_pow2_exp (m : positive) (c : Z) : Zpos m <= 2 ^ c -> 0 <= c.
Proof.
  intros H. destruct (Z.le_gt_cases 0 c) as [|Hc]; [assumption|].
  rewrite Z.pow_neg_r in H by lia. lia.
Qed.

Lemma binary_round_aux_le (s : bool) (mz : positive) (ez k : Z) :
  emin <= k <= emax - prec ->
  Zpos mz <= 2 ^ (k - ez) ->
  rounded s k (binary_round_aux prec emax s (Zpos mz) ez loc_Exact).
Proof.
  intros Hk Hle.
  pose proof (le_pow2_exp _ _ Hle) as Hkez.
  unfold binary_round_aux, shr_fexp. cbn [shr_record_of_loc].
  set (n1 := fexp prec emax (Zdigits2 (Zpos mz) + ez) - ez).
  destruct (shr_shifted (Zpos mz) ez n1) as (r1 & E1 & S1); [lia|].
  rewrite E1. clear E1.
  set (e1 := ez + Z.max n1 0) in *.
  assert (He1 : e1 <= k).
  { subst e1 n1. unfold fexp, SpecFloat.emin, emax, prec in *. cbn [Zdigits2] in *.
    pose proof (digits2_lower mz) as Hd.
    assert (Zpos (digits2_pos mz) - 1 <= k - ez).
    { apply (Z.pow_le_mono_r_iff 2); lia. }
    lia. }
  set (m1 := round_nearest_even (shr_m r1) (loc_of_shr_record r1)).
  assert (Hm1 : 0 <= m1 <= 2 ^ (k - e1)).
  { destruct S1 as (rem & Hrem & Hm & Hq & Hrs).
    assert (HN : 0 <= Z.max n1 0) by lia.
    assert (HP : 2 ^ (k - ez) = 2 ^ (k - e1) * 2 ^ Z.max n1 0).
    { rewrite <- pow2_split by lia. f_equal. subst e1. lia. }
    pose proof (pow2_pos (Z.max n1 0) HN) as HX.
    pose proof (pow2_pos (k - e1) ltac:(lia)) as HY.
    rewrite HP in Hle.
    remember (2 ^ Z.max n1 0) as X. remember (2 ^ (k - e1)) as Y.
    destruct (round_nearest_even_cases r1) as [E | [E Hrs']]; fold m1 in E; rewrite E.
    - split; [lia | nia].
    - specialize (Hrs Hrs'). split; [lia | nia]. }
  clearbody m1. clear S1 r1.
  cbn [shr_record_of_loc].
  set (n2 := fexp prec emax (Zdigits2 m1 + e1) - e1).
  destruct (shr_shifted m1 e1 n2) as (r2 & E2 & S2); [lia|].
  rewrite E2. clear E2.
  destruct S2 as (rem & Hrem & Hm & Hq & _).
  destruct (shr_m r2) as [| m2 | m2] eqn:Em2.
  - now left.
  - assert (HN : 0 <= Z.max n2 0) by lia.
    pose proof (pow2_pos (Z.max n2 0) HN) as HX.
    assert (Hge : 0 <= k - (e1 + Z.max n2 0)).
    { destruct (Z.le_gt_cases 0 (k - (e1 + Z.max n2 0))) as [|Hc]; [assumption|].
      assert (2 ^ (k - e1) < 2 ^ Z.max n2 0) by (apply Z.pow_lt_mono_r; lia).
      nia. }
    assert (HP : 2 ^ (k - e1) = 2 ^ (k - (e1 + Z.max n2 0)) * 2 ^ Z.max n2 0).
    { rewrite <- pow2_split by lia. f_equal. lia. }
    assert (Hfin : Zpos m2 <= 2 ^ (k - (e1 + Z.max n2 0))).
    { rewrite HP in Hm1.
      remember (2 ^ Z.max n2 0) as X. remember (2 ^ (k - (e1 + Z.max n2 0))) as Y.
      nia. }
    replace (e1 + Z.max n2 0 <=? emax - prec) with true by (symmetry; apply Z.leb_le; lia).
    right. eauto.
  - lia.
Qed.

Lemma shl_align_value (mx : positive) (ex ex' : Z) :
  ex' <= ex ->
  shl_align mx ex ex' = (fst (shl_align mx ex ex'), ex') /\
  Zpos (fst (shl_align mx ex ex')) = Zpos mx * 2 ^ (ex - ex').
Proof.
  intros H. unfold shl_align.
  destruct (ex' - ex) as [| d | d] eqn:E; cbn [fst].
  - replace (ex - ex') with 0 by lia. replace ex' with ex by lia. split; [reflexivity | simpl; lia].
  - lia.
  - split; [reflexivity|]. rewrite iter_xO. f_equal. f_equal. lia.
Qed.

Lemma binary_round_le (s : bool) (mx : positive) (ex k : Z) :
  emin <= k <= emax - prec ->
  Zpos mx <= 2 ^ (k - ex) ->
  rounded s k (binary_round prec emax s mx ex).
Proof.
  intros Hk Hle. unfold binary_round.
  pose proof (le_pow2_exp _ _ Hle) as Hkex.
  set (ex' := fexp prec emax (Zpos (digits2_pos mx) + ex)).
  destruct (Z.le_gt_cases ex' ex) as [Hc | Hc].
  - destruct (shl_align_value mx ex ex' Hc) as [E V]. rewrite E.
    apply binary_round_aux_le; [assumption|]. rewrite V.
    replace (k - ex') with ((k - ex) + (ex - ex')) by lia.
    rewrite pow2_split by lia.
    pose proof (pow2_pos (ex - ex') ltac:(lia)). nia.
  - assert (E : shl_align mx ex ex' = (mx, ex)).
    { unfold shl_align. destruct (ex' - ex) eqn:E; try reflexivity. lia. }
    rewrite E. now apply binary_round_aux_le.
Qed.

Lemma binary_normalize_le (m e k : Z) :
  emin <= k <= emax - prec ->
  Z.abs m <= 2 ^ (k - e) ->
  exists s, rounded s k (binary_normalize prec emax m e false).
Proof.
  intros Hk Hle. destruct m as [| p | p]; cbn [binary_normalize].
  - exists false. now left.
  - exists false. now apply binary_round_le.
  - exists true. now apply binary_round_le.
Qed.


Lemma canonical_digits (m : positive) (e : Z) :
  canonical_mantissa prec emax m e = true ->
  Zpos (digits2_pos m) <= prec /\ (Zpos (digits2_pos m) = prec \/ e = emin).
Proof.
  unfold canonical_mantissa, fexp, SpecFloat.emin, emax, prec.
  intros H. apply Z.eqb_eq in H. lia.
Qed.

Lemma SFleb_finite_pos (m m' : positive) (e e' : Z) :
  SFleb (S754_finite false m e) (S754_finite false m' e') = true <->
  e < e' \/ (e = e' /\ Zpos m <= Zpos m').
Proof.
  unfold SFleb, SFcompare.
  change (Pos.compare_cont Eq m m') with (m ?= m')%positive.
  destruct (Z.compare_spec e e') as [E | E | E];
    [destruct (Pos.compare_spec m m') as [Ec | Ec | Ec] | |];
    split; intros H; try reflexivity; try discriminate; lia.
Qed.

Lemma unit_interval_spec (x : spec_float) :
  valid_binary x = true ->
  SFleb (S754_zero false) x = true -> SFleb x SF1 = true ->
  nonneg_le 0 x.
Proof.
  intros Hv H0 H1. destruct x as [s | s | | s m e].
  - left. eauto.
  - destruct s; discriminate.
  - discriminate.
  - destruct s; [discriminate|]. right. exists m, e. split; [reflexivity|].
    unfold SpecFloat.valid_binary, bounded in Hv. apply andb_prop in Hv as [Hc _].
    apply canonical_digits in Hc as [Hd _]. unfold prec in Hd.
    pose proof (digits2_upper m) as Hu.
    unfold SF1 in H1. apply SFleb_finite_pos in H1 as [E | [E Hm]].
    + assert (2 ^ Zpos (digits2_pos m) <= 2 ^ (0 - e)) by (apply Z.pow_le_mono_r; lia). lia.
    + subst e. exact Hm.
Qed.

Lemma nonneg_le_mono (k k' : Z) (x : spec_float) :
  k <= k' -> nonneg_le k x -> nonneg_le k' x.
Proof.
  intros Hk [H | (m & e & E & H)]; [now left | right].
  exists m, e. split; [assumption|].
  pose proof (le_pow2_exp _ _ H).
  assert (2 ^ (k - e) <= 2 ^ (k' - e)) by (apply Z.pow_le_mono_r; lia). lia.
Qed.

Lemma rounded_nonneg (k : Z) (x : spec_float) : rounded false k x -> nonneg_le k x.
Proof. intros [H | H]; [left; eauto | now right]. Qed.

Lemma aligned_le (m : positive) (e ez k : Z) :
  ez <= e -> Zpos m <= 2 ^ (k - e) ->
  Zpos (fst (shl_align m e ez)) <= 2 ^ (k - ez).
Proof.
  intros He H. pose proof (le_pow2_exp _ _ H).
  destruct (shl_align_value m e ez He) as [_ V]. rewrite V.
  replace (k - ez) with ((k - e) + (e - ez)) by lia.
  rewrite pow2_split by lia.
  pose proof (pow2_pos (e - ez) ltac:(lia)). nia.
Qed.

Lemma SFadd_unit (x y : spec_float) :
  nonneg_le 0 x -> nonneg_le 0 y -> nonneg_le 1 (SFadd prec emax x y).
Proof.
  intros [[sx Ex] | (mx & ex & Ex & Hx)] [[sy Ey] | (my & ey & Ey & Hy)]; subst x y.
  - left. destruct sx, sy; cbn; eauto.
  - cbn. apply (nonneg_le_mono 0); [lia|]. right. eauto.
  - cbn. apply (nonneg_le_mono 0); [lia|]. right. eauto.
  - cbn [SFadd cond_Zopp].
    set (ez := Z.min ex ey).
    pose proof (aligned_le mx ex ez 0 ltac:(lia) Hx) as Ha.
    pose proof (aligned_le my ey ez 0 ltac:(lia) Hy) as Hb.
    set (a := fst (shl_align mx ex ez)) in *. set (b := fst (shl_align my ey ez)) in *.
    change (Zpos a + Zpos b) with (Zpos (a + b)). cbn [binary_normalize].
    apply rounded_nonneg, binary_round_le.
    + unfold SpecFloat.emin, emax, prec. lia.
    + pose proof (le_pow2_exp _ _ Ha).
      replace (1 - ez) with (1 + (0 - ez)) by lia. rewrite pow2_split by lia.
      change (2 ^ 1) with 2. lia.
Qed.

Lemma SFsub_one (x : spec_float) :
  nonneg_le 1 x -> exists s, rounded s 0 (SFsub prec emax x SF1).
Proof.
  intros [[sx Ex] | (mx & ex & Ex & Hx)]; subst x.
  - exists true. right. cbn. do 2 eexists. split; [reflexivity|]. now vm_compute.
  - unfold SF1. cbn [SFsub cond_Zopp].
    set (ez := Z.min ex (-52)).
    pose proof (aligned_le mx ex ez 1 ltac:(lia) Hx) as Ha.
    destruct (shl_align_value 4503599627370496 (-52) ez ltac:(lia)) as [_ Vb].
    set (a := fst (shl_align mx ex ez)) in *.
    set (b := fst (shl_align 4503599627370496 (-52) ez)) in *.
    apply binary_normalize_le.
    + unfold SpecFloat.emin, emax, prec. lia.
    + assert (Hb : Zpos b = 2 ^ (0 - ez)).
      { rewrite Vb. change 4503599627370496 with (2 ^ 52).
        rewrite <- pow2_split by lia. f_equal. lia. }
      replace (1 - ez) with (1 + (0 - ez)) in Ha by lia.
      rewrite pow2_split in Ha by lia. change (2 ^ 1) with 2 in Ha.
      lia.
Qed.

Lemma SFabs_unit (x : spec_float) :
  (exists s, rounded s 0 x) ->
  valid_binary (SFabs x) = true ->
  SFleb (S754_zero false) (SFabs x) = true /\ SFleb (SFabs x) SF1 = true.
Proof.
  intros [s [E | (m & e & E & H)]] Hv; subst x; cbn [SFabs] in *.
  - split; reflexivity.
  - split; [reflexivity|].
    unfold SpecFloat.valid_binary, bounded in Hv. apply andb_prop in Hv as [Hc _].
    apply canonical_digits in Hc as [Hd Hc]. unfold prec, SpecFloat.emin, emax in *.
    pose proof (le_pow2_exp _ _ H) as He.
    unfold SF1. apply SFleb_finite_pos.
    destruct (Z.lt_trichotomy e (-52)) as [E | [E | E]].
    + now left.
    + right. subst e. split; [reflexivity | exact H].
    + exfalso. pose proof (digits2_lower m) as Hl.
      assert (Zpos (digits2_pos m) - 1 <= 0 - e).
      { apply (Z.pow_le_mono_r_iff 2); lia. }
      lia.
Qed.

End Rounding.

Section FloatFacts.

Local Open Scope float_scope.

Lemma distance_unit_interval (a i : float) :
  (0 <=? a) = true -> (a <=? 1) = true ->
  (0 <=? i) = true -> (i <=? 1) = true ->
  (0 <=? PrimFloat.abs (a + i - 1)) = true /\ (PrimFloat.abs (a + i - 1) <=? 1) = true.
Proof.
  rewrite !leb_spec. intros Ha0 Ha1 Hi0 Hi1.
  pose proof (Prim2SF_valid (PrimFloat.abs (a + i - 1))) as Hv.
  rewrite abs_spec, sub_spec, add_spec in *.
  change (Prim2SF 0) with (S754_zero false) in *.
  change (Prim2SF 1) with SF1 in *.
  apply SFabs_unit; [|exact Hv].
  apply SFsub_one, SFadd_unit; apply unit_interval_spec; auto using Prim2SF_valid.
Qed.

Lemma SFadd_comm (x y : spec_float) : SFadd prec emax x y = SFadd prec emax y x.
Proof.
  destruct x as [[|] | [|] | | sx mx ex], y as [[|] | [|] | | sy my ey]; try reflexivity.
  cbn [SFadd]. rewrite (Z.min_comm ey ex). f_equal. apply Z.add_comm.
Qed.

Lemma float_add_comm (x y : float) : x + y = y + x.
Proof. apply Prim2SF_inj. rewrite !add_spec. apply SFadd_comm. Qed.

Lemma float_add_nan_l (x : float) : nan + x = nan.
Proof. apply Prim2SF_inj. rewrite add_spec. reflexivity. Qed.

Lemma float_add_nan_r (x : float) : x + nan = nan.
Proof. rewrite float_add_comm. apply float_add_nan_l. Qed.

Lemma float_sub_nan_l (x : float) : nan - x = nan.
Proof. apply Prim2SF_inj. rewrite sub_spec. reflexivity. Qed.

Lemma float_abs_nan : PrimFloat.abs nan = nan.
Proof. reflexivity. Qed.

End FloatFacts.

(** ** Series and their alignment *)

Section SeriesFacts.

Lemma label_eqb_eq (a b : label) : label_eqb a b = true <-> a = b.
Proof.
  destruct a as [n | s], b as [m | t]; simpl; split; intros H;
    try discriminate; try (inversion H; subst).
  - apply Z.eqb_eq in H. now subst.
  - apply Z.eqb_refl.
  - apply String.eqb_eq in H. now subst.
  - apply String.eqb_refl.
Qed.

Lemma label_eqb_refl (a : label) : label_eqb a a = true.
Proof. now apply label_eqb_eq. Qed.

Lemma index_equals_eq (a b : list label) : index_equals a b = true <-> a = b.
Proof.
  revert b. induction a as [| x a IH]; intros [| y b]; simpl; split; intros H;
    try discriminate; try reflexivity.
  - apply andb_prop in H as [H1 H2]. apply label_eqb_eq in H1. apply IH in H2.
    now subst.
  - inversion H; subst. rewrite label_eqb_refl. now apply IH.
Qed.

Lemma index_equals_neq (a b : list label) : a <> b -> index_equals a b = false.
Proof.
  intros H. destruct (index_equals a b) eqn:E; [|reflexivity].
  apply index_equals_eq in E. contradiction.
Qed.

Variable index_union : list label -> list label -> list label.

Lemma distance_aligned (a i : Series) :
  index a = index i -> distance index_union a i = elementwise a i.
Proof.
  intros H. unfold distance, add, align.
  replace (index_equals (index a) (index i)) with true
    by (symmetry; now apply index_equals_eq).
  unfold Pandas.abs, sub_scalar, elementwise. rewrite !map_map. reflexivity.
Qed.

Lemma elementwise_index (a i : Series) :
  index a = index i -> index (elementwise a i) = index i.
Proof.
  unfold index, elementwise. rewrite map_map. cbn [fst].
  revert i. induction a as [| [l x] a IH]; intros [| [l' y] i]; simpl; intros H;
    try discriminate; try reflexivity.
  inversion H; subst. now rewrite IH.
Qed.

Lemma elementwise_nth (a i : Series) (k : nat) (x y : float) :
  nth_error (values a) k = Some x -> nth_error (values i) k = Some y ->
  nth_error (values (elementwise a i)) k = Some (PrimFloat.abs (x + y - 1)%float).
Proof.
  unfold values, elementwise. rewrite map_map. cbn [snd].
  revert i k. induction a as [| [l u] a IH]; intros [| [l' v] i] [| k]; simpl;
    intros Hx Hy; try discriminate.
  - now inversion Hx; inversion Hy; subst.
  - now apply IH.
Qed.

Lemma elementwise_comm (a i : Series) :
  index a = index i -> elementwise i a = elementwise a i.
Proof.
  unfold index, elementwise.
  revert i. induction a as [| [l x] a IH]; intros [| [l' y] i]; simpl; intros H;
    try discriminate; try reflexivity.
  inversion H; subst. rewrite (float_add_comm y x). f_equal. now apply IH.
Qed.

Lemma swap_at_index (k : nat) (a i : Series) :
  index (fst (swap_at k a i)) = index a /\ index (snd (swap_at k a i)) = index i.
Proof.
  revert a i. induction k as [| k IH]; intros [| [la x] a] [| [li y] i]; simpl;
    try (split; reflexivity).
  specialize (IH a i). destruct (swap_at k a i) as [a' i']. simpl in *.
  destruct IH as [-> ->]. split; reflexivity.
Qed.

Lemma elementwise_swap_at (k : nat) (a i : Series) :
  elementwise (fst (swap_at k a i)) (snd (swap_at k a i)) = elementwise a i.
Proof.
  unfold elementwise.
  revert a i. induction k as [| k IH]; intros [| [la x] a] [| [li y] i]; simpl;
    try reflexivity.
  - now rewrite (float_add_comm y x).
  - specialize (IH a i). destruct (swap_at k a i) as [a' i']. simpl in *.
    now rewrite IH.
Qed.

Lemma elementwise_in_unit (a i : Series) :
  Forall in_unit (values a) -> Forall in_unit (values i) ->
  Forall in_unit (values (elementwise a i)).
Proof.
  unfold values, elementwise. rewrite map_map. cbn [snd].
  revert i. induction a as [| [l x] a IH]; intros [| [l' y] i]; simpl;
    intros Ha Hi; try constructor.
  - inversion Ha as [| ? ? [Hx0 Hx1] Ha']; inversion Hi as [| ? ? [Hy0 Hy1] Hi']; subst.
    now apply distance_unit_interval.
  - inversion Ha; inversion Hi; subst. now apply IH.
Qed.

Lemma get_None (s : Series) (l : label) : get s l = None <-> ~ In l (index s).
Proof.
  induction s as [| [k v] s IH]; simpl.
  - tauto.
  - destruct (label_eqb k l) eqn:E.
    + apply label_eqb_eq in E. subst. split; [discriminate | tauto].
    + assert (k <> l) by (intros ->; rewrite label_eqb_refl in E; discriminate).
      tauto.
Qed.

Lemma get_Some_In (s : Series) (l : label) (x : float) :
  get s l = Some x -> In l (index s).
Proof.
  intros H. destruct (get_None s l) as [_ Hn].
  induction s as [| [k v] s IH]; simpl in *; [discriminate|].
  destruct (label_eqb k l) eqn:E.
  - apply label_eqb_eq in E. now left.
  - right. apply IH; [assumption|].
    intros Hs. apply get_None. exact Hs.
Qed.

Lemma get_Some_of_In (s : Series) (l : label) (x : float) :
  NoDup (index s) -> In (l, x) s -> get s l = Some x.
Proof.
  induction s as [| [k v] s IH]; simpl; intros Hnd Hin; [contradiction|].
  inversion Hnd as [| ? ? Hk Hnd']; subst.
  destruct Hin as [E | Hin].
  - inversion E; subst. now rewrite label_eqb_refl.
  - destruct (label_eqb k l) eqn:E.
    + apply label_eqb_eq in E. subst. exfalso. apply Hk.
      unfold index. now apply (in_map fst) in Hin.
    + now apply IH.
Qed.

Lemma combine_map_same {A B C : Type} (f : A -> B) (g : A -> C) (l : list A) :
  combine (map f l) (map g l) = map (fun x => (f x, g x)) l.
Proof. induction l as [| x l IH]; simpl; [reflexivity | now rewrite IH]. Qed.

Lemma distance_misaligned (a i : Series) :
  index a <> index i ->
  distance index_union a i =
  map (fun l => (l, PrimFloat.abs
                      ((match get a l with Some v => v | None => nan end)
                       + (match get i l with Some v => v | None => nan end) - 1)%float))
      (index_union (index a) (index i)).
Proof.
  intros H. unfold distance, add, align.
  rewrite (index_equals_neq _ _ H). unfold reindex, Pandas.abs, sub_scalar.
  rewrite combine_map_same, !map_map. reflexivity.
Qed.

End SeriesFacts.

Lemma dedup_In (ls : list label) (l : label) : In l (dedup ls) <-> In l ls.
Proof.
  induction ls as [| k ls IH]; simpl; [tauto|].
  rewrite filter_In, IH. split.
  - intros [H | [H _]]; auto.
  - intros [H | H]; [now left|].
    destruct (label_eqb k l) eqn:E.
    + apply label_eqb_eq in E. now left.
    + right. now split.
Qed.

Lemma union_left_first_In (xs ys : list label) (l : label) :
  In l (union_left_first xs ys) <-> In l xs \/ In l ys.
Proof. unfold union_left_first. rewrite dedup_In. apply in_app_iff. Qed.

(** ** The distance calculator *)

Local Open Scope float_scope.

(** C1 (as amended).  On two series aligned on the same index
    [_calculate_distance] returns, and the series it stores carries
    the index of the inputs and, at every position, the binary64 value
    [|A + I - 1|].  For the series of the test these values are
    0.10000000000000009, 0, 0.9, 1, 0.19999999999999996 and
    0.30000000000000004: within 2^-52 of .1, .0, .9, 1., .2, .3. *)
Theorem calculate_distance_elementwise :
  (forall index_union self a i,
      _abstractness_metric self = Some a ->
      _instability_metric self = Some i ->
      index a = index i ->
      exists self' d,
        _calculate_distance index_union self = Returned self'
        /\ _distance self' = Some d
        /\ index d = index i
        /\ forall k x y,
             nth_error (values a) k = Some x ->
             nth_error (values i) k = Some y ->
             nth_error (values d) k = Some (PrimFloat.abs (x + y - 1)))
  /\ (forall index_union,
        distance_values
          (_calculate_distance index_union (patched mocked_i_metric mocked_a_metric))
        = Some [0.10000000000000009; 0; 0.9; 1;
                0.19999999999999996; 0.30000000000000004])
  /\ all_close 0x1p-52
       [0.10000000000000009; 0; 0.9; 1; 0.19999999999999996; 0.30000000000000004]
       [0.1; 0.0; 0.9; 1.0; 0.2; 0.3] = true.
Proof.
  split; [| split].
  - intros index_union self a i Ha Hi Hidx.
    unfold _calculate_distance. rewrite Ha, Hi.
    eexists. exists (distance index_union a i).
    split; [reflexivity|]. split; [reflexivity|].
    rewrite distance_aligned by assumption.
    split; [now apply elementwise_index|].
    intros k x y. apply elementwise_nth.
  - intros index_union. vm_compute. reflexivity.
  - vm_compute. reflexivity.
Qed.

Lemma calculate_distance_elementwise_witness :
  exists self' d,
    _calculate_distance union_left_first (patched mocked_i_metric mocked_a_metric)
    = Returned self'
    /\ _distance self' = Some d
    /\ index d = index mocked_i_metric
    /\ forall k x y,
         nth_error (values mocked_a_metric) k = Some x ->
         nth_error (values mocked_i_metric) k = Some y ->
         nth_error (values d) k = Some (PrimFloat.abs (x + y - 1)).
Proof.
  apply (proj1 calculate_distance_elementwise union_left_first
               (patched mocked_i_metric mocked_a_metric)
               mocked_a_metric mocked_i_metric);
    reflexivity.
Defined.

(** C1 (as stated) fails on the series of the test: the call returns,
    and the first value it stores is not [==] to .1 (nor are the fifth
    and the sixth to .2 and .3). *)
Lemma calculate_distance_not_decimal :
  exists vs,
    distance_values
      (_calculate_distance union_left_first (patched mocked_i_metric mocked_a_metric))
    = Some vs
    /\ all_eqb vs [0.1; 0.0; 0.9; 1.0; 0.2; 0.3] = false
    /\ (hd 0 vs =? 0.1) = false.
Proof.
  eexists. split; [vm_compute; reflexivity|]. split; vm_compute; reflexivity.
Qed.

(** C7.  On series aligned on the same index whose values all lie
    between 0 and 1, every value of the distance lies between 0 and 1. *)
Theorem distance_in_unit_interval :
  forall index_union a i,
    index a = index i ->
    Forall in_unit (values a) -> Forall in_unit (values i) ->
    Forall in_unit (values (distance index_union a i)).
Proof.
  intros index_union a i Hidx Ha Hi.
  rewrite distance_aligned by assumption. now apply elementwise_in_unit.
Qed.

Lemma distance_in_unit_interval_witness :
  Forall in_unit (values (distance union_left_first mocked_a_metric mocked_i_metric)).
Proof.
  apply (distance_in_unit_interval union_left_first mocked_a_metric mocked_i_metric).
  - reflexivity.
  - repeat constructor.
  - repeat constructor.
Defined.

(** C8.  On series aligned on the same index, exchanging the two
    series, or the two values held at any one position, leaves the
    distance as it was. *)
Theorem distance_swap_invariant :
  forall index_union a i,
    index a = index i ->
    distance index_union i a = distance index_union a i
    /\ forall k,
         distance index_union (fst (swap_at k a i)) (snd (swap_at k a i))
         = distance index_union a i.
Proof.
  intros index_union a i Hidx. split.
  - rewrite !distance_aligned by congruence. now apply elementwise_comm.
  - intros k. destruct (swap_at_index k a i) as [Ea Ei].
    rewrite !distance_aligned by congruence. apply elementwise_swap_at.
Qed.

Lemma distance_swap_invariant_witness :
  distance union_left_first mocked_i_metric mocked_a_metric
  = distance union_left_first mocked_a_metric mocked_i_metric
  /\ forall k,
       distance union_left_first
                (fst (swap_at k mocked_a_metric mocked_i_metric))
                (snd (swap_at k mocked_a_metric mocked_i_metric))
       = distance union_left_first mocked_a_metric mocked_i_metric.
Proof.
  apply (distance_swap_invariant union_left_first mocked_a_metric mocked_i_metric).
  reflexivity.
Defined.

(** C9.  [plot_distance] takes both metrics from the collaborator and
    computes the distance from them: two calls whose collaborators
    answer alike return, hand the same calls to the plotting library
    and leave the same distance, whatever the objects held before. *)
Theorem plot_distance_recomputes :
  forall index_union dsu1 dsu2 (s1 s2 : DistanceIA.t),
    dsu1 (_dir_path s1) = dsu2 (_dir_path s2) ->
    exists s1' s2' calls,
      plot_distance index_union dsu1 s1 = Returned (s1', calls)
      /\ plot_distance index_union dsu2 s2 = Returned (s2', calls)
      /\ _distance s1' = _distance s2'
      /\ _distance s1'
         = Some (distance index_union (snd (dsu1 (_dir_path s1)))
                          (fst (dsu1 (_dir_path s1)))).
Proof.
  intros index_union dsu1 dsu2 s1 s2 H.
  unfold plot_distance. rewrite <- H.
  destruct (dsu1 (_dir_path s1)) as [i a]. cbn.
  do 3 eexists. repeat split; reflexivity.
Qed.

Lemma plot_distance_recomputes_witness :
  exists s1' s2' calls,
    plot_distance union_left_first (fun _ => (mocked_i_metric, mocked_a_metric))
                  (__init__ "") = Returned (s1', calls)
    /\ plot_distance union_left_first (fun _ => (mocked_i_metric, mocked_a_metric))
                     (patched labelled_i_metric labelled_i_metric)
       = Returned (s2', calls)
    /\ _distance s1' = _distance s2'
    /\ _distance s1'
       = Some (distance union_left_first mocked_a_metric mocked_i_metric).
Proof.
  apply (plot_distance_recomputes union_left_first
           (fun _ => (mocked_i_metric, mocked_a_metric))
           (fun _ => (mocked_i_metric, mocked_a_metric))
           (__init__ "") (patched labelled_i_metric labelled_i_metric)).
  reflexivity.
Defined.

(** C10.  When the indexes of the two metrics differ (neither has a
    repeated label), [_calculate_distance] returns; the distance is
    indexed by the union of the two label sets; a label that one of
    the metrics lacks carries NaN, and a label both have carries
    [|A + I - 1|]. *)
Theorem misaligned_distance_nan :
  forall index_union self a i,
    (forall xs ys l, In l (index_union xs ys) <-> In l xs \/ In l ys) ->
    _abstractness_metric self = Some a ->
    _instability_metric self = Some i ->
    NoDup (index a) -> NoDup (index i) ->
    index a <> index i ->
    exists self' d,
      _calculate_distance index_union self = Returned self'
      /\ _distance self' = Some d
      /\ (forall l, In l (index d) <-> In l (index a) \/ In l (index i))
      /\ (forall l v, In (l, v) d ->
                      ~ (In l (index a) /\ In l (index i)) -> v = nan)
      /\ (forall l v x y, In (l, v) d -> In (l, x) a -> In (l, y) i ->
                          v = PrimFloat.abs (x + y - 1)).
Proof.
  intros index_union self a i Hu Ha Hi Hna Hni Hneq.
  unfold _calculate_distance. rewrite Ha, Hi.
  eexists. exists (distance index_union a i).
  split; [reflexivity|]. split; [reflexivity|].
  rewrite (distance_misaligned index_union a i Hneq).
  split; [| split].
  - intros l. unfold index at 1. rewrite map_map. cbn [fst]. rewrite map_id.
    apply Hu.
  - intros l v Hin Hnot. apply in_map_iff in Hin as (l' & E & _).
    inversion E; subst l' v. clear E.
    destruct (get a l) as [x |] eqn:Ga.
    + destruct (get i l) as [y |] eqn:Gi.
      * exfalso. apply Hnot. split; eapply get_Some_In; eassumption.
      * now rewrite float_add_nan_r, float_sub_nan_l.
    + now rewrite float_add_nan_l, float_sub_nan_l.
  - intros l v x y Hin Hx Hy. apply in_map_iff in Hin as (l' & E & _).
    inversion E; subst l' v.
    now rewrite (get_Some_of_In a l x Hna Hx), (get_Some_of_In i l y Hni Hy).
Qed.

Lemma misaligned_distance_nan_witness :
  exists self' d,
    _calculate_distance union_left_first (patched labelled_i_metric mocked_a_metric)
    = Returned self'
    /\ _distance self' = Some d
    /\ (forall l, In l (index d) <->
                  In l (index mocked_a_metric) \/ In l (index labelled_i_metric))
    /\ (forall l v, In (l, v) d ->
                    ~ (In l (index mocked_a_metric) /\ In l (index labelled_i_metric)) ->
                    v = nan)
    /\ (forall l v x y, In (l, v) d -> In (l, x) mocked_a_metric ->
                        In (l, y) labelled_i_metric ->
                        v = PrimFloat.abs (x + y - 1)).
Proof.
  apply (misaligned_distance_nan union_left_first
           (patched labelled_i_metric mocked_a_metric)
           mocked_a_metric labelled_i_metric).
  - apply union_left_first_In.
  - reflexivity.
  - reflexivity.
  - vm_compute. repeat constructor; simpl; intuition discriminate.
  - vm_compute. repeat constructor; simpl; intuition discriminate.
  - vm_compute. discriminate.
Defined.

Local Close Scope float_scope.

(** ** The dependency extractor *)

Import InstabilityMetric.

Section Extractor.

Local Open Scope string_scope.

Lemma is_space_blank (c : ascii) : is_space c = true <-> blank c.
Proof.
  unfold is_space, blank. cbn [existsb]. rewrite !orb_true_iff, !Ascii.eqb_eq.
  split; intros H; repeat (destruct H as [H | H]; auto); try discriminate;
    tauto.
Qed.

Lemma lstrip_blanks (ws s : string) :
  blanks ws -> lstrip (ws ++ s) = lstrip s.
Proof.
  induction ws as [| c ws IH]; simpl; intros H; [reflexivity|].
  destruct H as [Hc Hws]. apply is_space_blank in Hc. rewrite Hc. now apply IH.
Qed.

Lemma lstrip_split (s : string) :
  exists ws, blanks ws /\ s = ws ++ lstrip s.
Proof.
  induction s as [| c s IH]; simpl.
  - exists "". now split.
  - destruct (is_space c) eqn:E.
    + destruct IH as (ws & Hws & Es). exists (String c ws). split.
      * split; [now apply is_space_blank | assumption].
      * simpl. now rewrite <- Es.
    + exists "". now split.
Qed.

Lemma strip_prefix_app (p s : string) : strip_prefix p (p ++ s) = Some s.
Proof.
  induction p as [| c p IH]; simpl; [now destruct s|].
  now rewrite Ascii.eqb_refl.
Qed.

Lemma strip_prefix_Some (p s r : string) :
  strip_prefix p s = Some r -> s = p ++ r.
Proof.
  revert s. induction p as [| c p IH]; intros [| d s]; simpl; intros H;
    try discriminate; try (now inversion H).
  destruct (Ascii.eqb c d) eqn:E; [|discriminate].
  apply Ascii.eqb_eq in E. subst d. f_equal. now apply IH.
Qed.

Lemma take_until_app (d : ascii) (name rest : string) :
  lacks d name = true -> take_until d (name ++ String d rest) = Some name.
Proof.
  induction name as [| c name IH]; simpl; intros H.
  - now rewrite Ascii.eqb_refl.
  - apply andb_prop in H as [Hc Hn]. apply negb_true_iff in Hc. rewrite Hc.
    now rewrite IH.
Qed.

Lemma take_until_Some (d : ascii) (s name : string) :
  take_until d s = Some name ->
  lacks d name = true /\ exists rest, s = name ++ String d rest.
Proof.
  revert name. induction s as [| c s IH]; simpl; intros name H; [discriminate|].
  destruct (Ascii.eqb c d) eqn:E.
  - inversion H; subst name. apply Ascii.eqb_eq in E. subst c.
    split; [reflexivity | now exists s].
  - destruct (take_until d s) as [n |] eqn:T; [|discriminate].
    inversion H; subst name. destruct (IH n eq_refl) as (Hn & rest & Es).
    split; [simpl; now rewrite E, Hn | exists rest; simpl; now rewrite Es].
Qed.

Lemma keyword_not_blank (s : string) :
  lstrip ("#include " ++ s) = "#include " ++ s.
Proof. reflexivity. Qed.

Lemma match_include_user (line name : string) :
  match_include line = Some (UserLib name) <-> user_form line name.
Proof.
  unfold match_include, user_form. split.
  - intros H. destruct (lstrip_split line) as (ws & Hws & El).
    destruct (strip_prefix "#include " (lstrip line)) as [[| c r] |] eqn:Ep;
      try discriminate.
    apply strip_prefix_Some in Ep.
    destruct (Ascii.eqb c dquote) eqn:Ec.
    + apply Ascii.eqb_eq in Ec. subst c.
      destruct (take_until dquote r) as [n |] eqn:Et; [|discriminate].
      inversion H; subst n. apply take_until_Some in Et as (Hn & rest & Er).
      exists ws, rest. repeat split; try assumption.
      rewrite El at 1. now rewrite Ep, Er.
    + destruct (Ascii.eqb c langle); [|discriminate].
      destruct (take_until rangle r); discriminate.
  - intros (ws & rest & Hws & Hn & ->).
    rewrite lstrip_blanks, keyword_not_blank, strip_prefix_app by assumption.
    rewrite Ascii.eqb_refl. now rewrite take_until_app.
Qed.

Lemma match_include_std (line name : string) :
  match_include line = Some (StdLib name) <-> std_form line name.
Proof.
  unfold match_include, std_form. split.
  - intros H. destruct (lstrip_split line) as (ws & Hws & El).
    destruct (strip_prefix "#include " (lstrip line)) as [[| c r] |] eqn:Ep;
      try discriminate.
    apply strip_prefix_Some in Ep.
    destruct (Ascii.eqb c dquote) eqn:Ec.
    + destruct (take_until dquote r); discriminate.
    + destruct (Ascii.eqb c langle) eqn:Ea; [|discriminate].
      apply Ascii.eqb_eq in Ea. subst c.
      destruct (take_until rangle r) as [n |] eqn:Et; [|discriminate].
      inversion H; subst n. apply take_until_Some in Et as (Hn & rest & Er).
      exists ws, rest. repeat split; try assumption.
      rewrite El at 1. now rewrite Ep, Er.
  - intros (ws & rest & Hws & Hn & ->).
    rewrite lstrip_blanks, keyword_not_blank, strip_prefix_app by assumption.
    change (Ascii.eqb langle dquote) with false. cbn iota.
    rewrite Ascii.eqb_refl. now rewrite take_until_app.
Qed.

Lemma match_include_none (line : string) :
  match_include line = None <->
  (forall n, ~ user_form line n) /\ (forall n, ~ std_form line n).
Proof.
  split.
  - intros H. split; intros n Hn.
    + apply match_include_user in Hn. congruence.
    + apply match_include_std in Hn. congruence.
  - intros [Hu Hs]. destruct (match_include line) as [[n | n] |] eqn:E;
      [ | | reflexivity].
    + exfalso. apply (Hu n). now apply match_include_user.
    + exfalso. apply (Hs n). now apply match_include_std.
Qed.

Lemma classify_Classified (lines : list string) :
  Classified lines (fst (classify lines)) (snd (classify lines)).
Proof.
  induction lines as [| l ls IH]; cbn [classify]; [constructor|].
  destruct (classify ls) as [user stl]. cbn [fst snd] in IH.
  destruct (match_include l) as [[n | n] |] eqn:E; cbn [fst snd].
  - apply Classified_user; [now apply match_include_user | assumption].
  - apply Classified_std; [now apply match_include_std | assumption].
  - apply match_include_none in E as [Hu Hs]. now apply Classified_other.
Qed.

Lemma Classified_functional (lines u1 s1 u2 s2 : list string) :
  Classified lines u1 s1 -> Classified lines u2 s2 -> u1 = u2 /\ s1 = s2.
Proof.
  intros H1. revert u2 s2.
  induction H1 as [| l n ls u s Hf _ IH | l n ls u s Hf _ IH | l ls u s Hu Hs _ IH];
    intros u2 s2 H2; inversion H2; subst.
  - now split.
  - apply match_include_user in Hf. match goal with
      H : user_form l _ |- _ => apply match_include_user in H end.
    destruct (IH _ _ ltac:(eassumption)) as [-> ->]. split; congruence.
  - apply match_include_user in Hf. match goal with
      H : std_form l _ |- _ => apply match_include_std in H end. congruence.
  - exfalso. match goal with H : forall n, ~ user_form l n |- _ => now apply (H n) end.
  - apply match_include_std in Hf. match goal with
      H : user_form l _ |- _ => apply match_include_user in H end. congruence.
  - apply match_include_std in Hf. match goal with
      H : std_form l _ |- _ => apply match_include_std in H end.
    destruct (IH _ _ ltac:(eassumption)) as [-> ->]. split; congruence.
  - exfalso. match goal with H : forall n, ~ std_form l n |- _ => now apply (H n) end.
  - exfalso. now apply (Hu n).
  - exfalso. now apply (Hs n).
  - now apply IH.
Qed.

Lemma split_lines_nonempty (text : string) : split_lines text <> [].
Proof.
  destruct text as [| c text]; simpl; [discriminate|].
  destruct (Ascii.eqb c newline); [discriminate|].
  destruct (split_lines text); discriminate.
Qed.

Lemma split_lines_join (text : string) : join_lines (split_lines text) = text.
Proof.
  induction text as [| c text IH]; [reflexivity|]. cbn [split_lines].
  pose proof (split_lines_nonempty text) as Hne.
  destruct (Ascii.eqb c newline) eqn:E.
  - apply Ascii.eqb_eq in E. subst c.
    destruct (split_lines text) as [| l ls]; [contradiction|].
    change (join_lines ("" :: l :: ls)) with (String newline (join_lines (l :: ls))).
    now rewrite IH.
  - destruct (split_lines text) as [| l ls]; [contradiction|].
    destruct ls as [| l' ls]; cbn [join_lines] in *; simpl; now rewrite IH.
Qed.

Lemma split_lines_lack_newline (text : string) :
  Forall (fun l => lacks newline l = true) (split_lines text).
Proof.
  induction text as [| c text IH]; cbn [split_lines]; [now repeat constructor|].
  destruct (Ascii.eqb c newline) eqn:E; [now constructor|].
  destruct (split_lines text) as [| l ls]; [now repeat constructor; simpl; rewrite E|].
  inversion IH; subst. constructor; [simpl; now rewrite E | assumption].
Qed.

End Extractor.

(** ** The growth of the matrix *)

Section Growth.

Lemma filter_swap {A : Type} (p q : A -> bool) (l : list A) :
  filter p (filter q l) = filter q (filter p l).
Proof.
  induction l as [| x l IH]; simpl; [reflexivity|].
  destruct (p x) eqn:Ep, (q x) eqn:Eq; simpl; rewrite ?Ep, ?Eq, IH; reflexivity.
Qed.

Lemma filter_drop_absent (p : string -> bool) (x : string) (l : list string) :
  p x = false ->
  filter p (filter (fun k => negb (String.eqb x k)) l) = filter p l.
Proof.
  intros Hx. induction l as [| y l IH]; simpl; [reflexivity|].
  destruct (String.eqb x y) eqn:E; simpl.
  - apply String.eqb_eq in E. subst y. now rewrite Hx.
  - now rewrite IH.
Qed.

Lemma filter_firsts (p : string -> bool) (l : list string) :
  filter p (firsts l) = firsts (filter p l).
Proof.
  induction l as [| x l IH]; simpl; [reflexivity|].
  destruct (p x) eqn:Ex; simpl.
  - now rewrite filter_swap, IH.
  - now rewrite filter_drop_absent, IH.
Qed.

Lemma firsts_In (l : list string) (x : string) : In x (firsts l) <-> In x l.
Proof.
  induction l as [| y l IH]; simpl; [tauto|].
  rewrite filter_In, IH. split.
  - intros [H | [H _]]; auto.
  - intros [H | H]; [now left|].
    destruct (String.eqb y x) eqn:E.
    + apply String.eqb_eq in E. now left.
    + right. now split.
Qed.

Lemma firsts_NoDup (l : list string) : NoDup (firsts l).
Proof.
  induction l as [| y l IH]; simpl; constructor.
  - rewrite filter_In. intros [_ H]. now rewrite String.eqb_refl in H.
  - now apply NoDup_filter.
Qed.

Lemma has_column_In (m : DataFrame) (n : string) :
  has_column m n = true <-> In n (columns m).
Proof.
  unfold has_column. rewrite existsb_exists. split.
  - intros (x & Hx & E). apply String.eqb_eq in E. now subst.
  - intros H. exists n. split; [assumption | apply String.eqb_refl].
Qed.

Lemma new_names_In (known names : list string) (n : string) :
  In n (new_names known names) <-> In n names /\ ~ In n known.
Proof.
  unfold new_names. rewrite firsts_In, filter_In, negb_true_iff.
  pose proof (has_column_In (frame [] known []) n) as H. unfold has_column in H.
  cbn [columns] in H. split; intros [H1 H2]; split; try assumption.
  - intros Hk. apply H in Hk. congruence.
  - destruct (existsb (String.eqb n) known); [|reflexivity].
    exfalso. apply H2. now apply H.
Qed.

Lemma new_names_known (known ns : list string) (n : string) :
  existsb (String.eqb n) known = true ->
  new_names known (n :: ns) = new_names known ns.
Proof. intros H. unfold new_names. cbn [filter]. now rewrite H. Qed.

Lemma new_names_fresh (known ns : list string) (n : string) :
  existsb (String.eqb n) known = false ->
  new_names known (n :: ns) = n :: new_names (known ++ [n]) ns.
Proof.
  intros H. unfold new_names. cbn [filter]. rewrite H. cbn [negb firsts].
  f_equal. rewrite filter_firsts. f_equal.
  induction ns as [| k ns IH]; simpl; [reflexivity|].
  rewrite existsb_app. cbn [existsb]. rewrite orb_false_r, (String.eqb_sym k n).
  destruct (existsb (String.eqb k) known) eqn:Ek; destruct (String.eqb n k) eqn:En;
    cbn [negb orb filter]; rewrite ?En; cbn [negb]; rewrite ?IH; reflexivity.
Qed.

Lemma fold_add_columns (names : list string) (m : DataFrame) :
  columns (fold_left add_if_new names m)
  = columns m ++ new_names (columns m) names.
Proof.
  revert m. induction names as [| n ns IH]; intros m; cbn [fold_left].
  - unfold new_names. cbn. now rewrite app_nil_r.
  - rewrite IH. unfold add_if_new, has_column.
    destruct (existsb (String.eqb n) (columns m)) eqn:E.
    + now rewrite new_names_known.
    + rewrite new_names_fresh by assumption. cbn [add_column columns].
      now rewrite <- app_assoc.
Qed.

Lemma fold_add_index (names : list string) (m : DataFrame) :
  index (fold_left add_if_new names m) = index m.
Proof.
  revert m. induction names as [| n ns IH]; intros m; cbn [fold_left];
    [reflexivity|].
  rewrite IH. unfold add_if_new. now destruct (has_column m n).
Qed.

Lemma fold_add_data (names : list string) (m : DataFrame) :
  data (fold_left add_if_new names m)
  = map (fun r => r ++ repeat 0%Z (List.length (new_names (columns m) names)))
        (data m).
Proof.
  revert m. induction names as [| n ns IH]; intros m; cbn [fold_left].
  - unfold new_names. cbn. rewrite <- (map_id (data m)) at 1.
    apply map_ext. intros r. now rewrite app_nil_r.
  - rewrite IH. unfold add_if_new, has_column.
    destruct (existsb (String.eqb n) (columns m)) eqn:E.
    + now rewrite new_names_known.
    + rewrite new_names_fresh by assumption. cbn [add_column columns data].
      rewrite map_map. apply map_ext. intros r.
      now rewrite <- app_assoc.
Qed.

Variable fs : filesystem.

Lemma add_stl_includes_fold (files : list string) (m : DataFrame) :
  fst (_add_stl_includes fs files m) = fold_left add_if_new (std_names fs files) m.
Proof.
  revert m. induction files as [| f files IH]; intros m; [reflexivity|].
  cbn [_add_stl_includes std_names flat_map]. rewrite fold_left_app.
  unfold add_stl_of_file.
  destruct (_get_includes_of_file fs f) as [[user stl] w]. cbn [fst snd].
  specialize (IH (fold_left add_if_new stl m)).
  destruct (_add_stl_includes fs files (fold_left add_if_new stl m)) as [m'' w'].
  exact IH.
Qed.

Lemma fold_add_known (names : list string) (m : DataFrame) :
  (forall n, In n names -> In n (columns m)) ->
  fold_left add_if_new names m = m.
Proof.
  induction names as [| n ns IH]; intros H; cbn [fold_left]; [reflexivity|].
  unfold add_if_new at 2.
  replace (has_column m n) with true
    by (symmetry; apply has_column_In, H; now left).
  apply IH. intros k Hk. apply H. now right.
Qed.

End Growth.

(** ** The filling of the matrix *)

Section Filling.

Lemma mark_length (cols : list string) (name : string) (row : list Z) :
  List.length (mark cols name row) = List.length row.
Proof.
  revert cols. induction row as [| v row IH]; intros [| c cols]; simpl;
    try reflexivity.
  now rewrite IH.
Qed.

Lemma mark_nth (cols : list string) (name : string) (row : list Z) (k : nat) :
  k < List.length row -> k < List.length cols ->
  nth k (mark cols name row) 0%Z
  = if String.eqb (nth k cols EmptyString) name then 1%Z else nth k row 0%Z.
Proof.
  revert cols k. induction row as [| v row IH]; intros [| c cols] [| k]; simpl;
    intros Hr Hc; try lia; try reflexivity.
  apply IH; lia.
Qed.

Lemma fold_mark_length (cols names : list string) (row : list Z) :
  List.length (fold_left (fun r n => mark cols n r) names row) = List.length row.
Proof.
  revert row. induction names as [| n ns IH]; intros row; cbn [fold_left];
    [reflexivity|].
  now rewrite IH, mark_length.
Qed.

Lemma fold_mark_nth (cols names : list string) (row : list Z) (k : nat) :
  k < List.length row -> k < List.length cols ->
  nth k (fold_left (fun r n => mark cols n r) names row) 0%Z
  = if existsb (String.eqb (nth k cols EmptyString)) names then 1%Z
    else nth k row 0%Z.
Proof.
  revert row. induction names as [| n ns IH]; intros row Hr Hc; cbn [fold_left existsb];
    [reflexivity|].
  rewrite IH by (rewrite ?mark_length; assumption).
  rewrite mark_nth by assumption.
  destruct (String.eqb (nth k cols EmptyString) n); cbn [orb];
    destruct (existsb (String.eqb (nth k cols EmptyString)) ns); reflexivity.
Qed.

Lemma update_row_length (i : nat) (f : list Z -> list Z) (rows : list (list Z)) :
  List.length (update_row i f rows) = List.length rows.
Proof.
  revert i. induction rows as [| r rows IH]; intros [| i]; simpl;
    try reflexivity.
  now rewrite IH.
Qed.

Lemma update_row_nth (i j : nat) (f : list Z -> list Z) (rows : list (list Z)) :
  j < List.length rows ->
  nth j (update_row i f rows) [] = if Nat.eqb j i then f (nth j rows []) else nth j rows [].
Proof.
  revert i j. induction rows as [| r rows IH]; intros [| i] [| j]; simpl;
    intros H; try lia; try reflexivity.
  - apply IH. lia.
Qed.

Lemma update_row_compose (i : nat) (f g : list Z -> list Z) (rows : list (list Z)) :
  update_row i f (update_row i g rows) = update_row i (fun r => f (g r)) rows.
Proof.
  revert i. induction rows as [| r rows IH]; intros [| i]; simpl;
    try reflexivity.
  now rewrite IH.
Qed.

Lemma update_row_id (i : nat) (rows : list (list Z)) :
  update_row i (fun r => r) rows = rows.
Proof.
  revert i. induction rows as [| r rows IH]; intros [| i]; simpl;
    try reflexivity.
  now rewrite IH.
Qed.

Lemma fold_record_edge (i : nat) (names : list string) (m : DataFrame) :
  fold_left (record_edge i) names m
  = {| index := index m;
       columns := columns m;
       data := update_row i
                 (fun r => fold_left (fun r n => mark (columns m) n r) names r)
                 (data m) |}.
Proof.
  revert m. induction names as [| n ns IH]; intros m; cbn [fold_left].
  - rewrite update_row_id. now destruct m.
  - rewrite IH. unfold record_edge. cbn [index columns data].
    now rewrite update_row_compose.
Qed.

Variable fs : filesystem.

(** What [fill_from] leaves: the labels and the shape as they were,
    and in the rows of the files it went through a one under every
    column that the file names. *)
Lemma fill_from_spec (files : list string) :
  forall (i : nat) (m : DataFrame),
    well_shaped m ->
    let m' := fst (fill_from fs i files m) in
    index m' = index m /\ columns m' = columns m
    /\ List.length (data m') = List.length (data m)
    /\ well_shaped m'
    /\ forall j k,
         j < List.length (data m) -> k < List.length (columns m) ->
         cell m' j k
         = if (i <=? j) && (j <? i + List.length files)
              && existsb (String.eqb (nth k (columns m) EmptyString))
                         (names_of fs (nth (j - i) files EmptyString))
           then 1%Z else cell m j k.
Proof.
  induction files as [| f files IH]; intros i m Hm; cbn zeta.
  - cbn [fill_from fst]. repeat split; try assumption.
    intros j k _ _. cbn [List.length]. rewrite Nat.add_0_r.
    destruct (Nat.leb_spec i j), (Nat.ltb_spec j i); try lia; reflexivity.
  - cbn [fill_from].
    unfold names_of in *.
    destruct (_get_includes_of_file fs f) as [[user stl] w] eqn:Ef.
    set (m1 := fold_left (record_edge i) (user ++ stl) m).
    assert (E1 : m1 = {| index := index m; columns := columns m;
                         data := update_row i
                                   (fun r => fold_left (fun r n => mark (columns m) n r)
                                                       (user ++ stl) r)
                                   (data m) |})
      by apply fold_record_edge.
    assert (Hm1 : well_shaped m1).
    { rewrite E1. unfold well_shaped in *. cbn [columns data].
      clear - Hm. revert i. induction Hm as [| r rows Hr Hrows IHr]; intros [| i];
        simpl; constructor; auto.
      now rewrite fold_mark_length. }
    specialize (IH (S i) m1 Hm1). cbn zeta in IH.
    destruct (fill_from fs (S i) files m1) as [m2 w2]. cbn [fst] in *.
    destruct IH as (Hi & Hc & Hl & Hw & Hcell).
    assert (Hc1 : columns m1 = columns m) by now rewrite E1.
    assert (Hl1 : List.length (data m1) = List.length (data m))
      by (rewrite E1; cbn [data]; apply update_row_length).
    repeat split.
    + rewrite Hi. now rewrite E1.
    + congruence.
    + congruence.
    + assumption.
    + intros j k Hj Hk. rewrite Hcell by congruence. rewrite Hc1.
      assert (Hrow : List.length (nth j (data m) []) = List.length (columns m)).
      { unfold well_shaped in Hm. rewrite Forall_forall in Hm. apply Hm.
        now apply nth_In. }
      assert (Hc1j : cell m1 j k
                     = if Nat.eqb j i
                          && existsb (String.eqb (nth k (columns m) EmptyString))
                                     (user ++ stl)
                       then 1%Z else cell m j k).
      { unfold cell. rewrite E1. cbn [data]. rewrite update_row_nth by assumption.
        destruct (Nat.eqb j i); [|reflexivity].
        cbn [andb]. apply fold_mark_nth; lia. }
      rewrite Hc1j. cbn [List.length].
      destruct (Nat.leb_spec (S i) j) as [H1 | H1];
        destruct (Nat.ltb_spec j (S i + List.length files)) as [H2 | H2];
        destruct (Nat.leb_spec i j) as [H3 | H3];
        destruct (Nat.ltb_spec j (i + S (List.length files))) as [H4 | H4];
        destruct (Nat.eqb_spec j i) as [H5 | H5];
        try lia; cbn [andb];
        first [ replace (j - i) with (S (j - S i)) by lia
              | replace (j - i) with 0 by lia
              | idtac ];
        cbn [nth]; rewrite ?Ef; cbn [fst snd];
        try reflexivity; destruct (existsb _ _); reflexivity.
Qed.

End Filling.

(** ** The builder as a whole *)

Lemma zeros_nth (n p j k : nat) :
  nth k (nth j (repeat (repeat 0%Z p) n) []) 0%Z = 0%Z.
Proof.
  revert j. induction n as [| n IH]; intros [| j]; simpl.
  - now destruct k.
  - now destruct k.
  - apply nth_repeat.
  - apply IH.
Qed.

Section Build.

Variable fs : filesystem.
Variable extract_filename : string -> string.

Lemma build_matrix (files : list string) :
  fst (build fs extract_filename files)
  = fst (fill_from fs 0 files
           (fold_left add_if_new (std_names fs files)
                      (_create_user_include_matrix extract_filename files))).
Proof.
  unfold build, _fill_include_matrix.
  rewrite <- add_stl_includes_fold.
  destruct (_add_stl_includes fs files _) as [m1 w1]. cbn [fst].
  now destruct (fill_from fs 0 files m1).
Qed.

Lemma grown_well_shaped (files : list string) :
  well_shaped (fold_left add_if_new (std_names fs files)
                         (_create_user_include_matrix extract_filename files)).
Proof.
  unfold well_shaped. rewrite fold_add_data, fold_add_columns.
  cbn [_create_user_include_matrix columns data]. unfold zeros.
  rewrite Forall_map, Forall_forall. intros r Hr. apply repeat_spec in Hr. subst r.
  rewrite !length_app, !repeat_length, length_map. reflexivity.
Qed.

Lemma grown_cells_zero (files : list string) (j k : nat) :
  cell (fold_left add_if_new (std_names fs files)
                  (_create_user_include_matrix extract_filename files)) j k = 0%Z.
Proof.
  unfold cell. rewrite fold_add_data.
  cbn [_create_user_include_matrix columns data]. unfold zeros.
  set (e := List.length (new_names _ _)).
  rewrite map_repeat, <- repeat_app. apply zeros_nth.
Qed.

End Build.

Lemma existsb_eqb_In (c : string) (names : list string) :
  existsb (String.eqb c) names = true <-> In c names.
Proof.
  rewrite existsb_exists. split.
  - intros (x & Hx & E). apply String.eqb_eq in E. now subst.
  - intros H. exists c. split; [assumption | apply String.eqb_refl].
Qed.

Lemma count_ones_zero (l : list Z) : count_ones l = 0%Z <-> ~ In 1%Z l.
Proof.
  unfold count_ones. rewrite (count_occ_not_In Z.eq_dec). lia.
Qed.

Lemma count_ones_nonneg (l : list Z) : (0 <= count_ones l)%Z.
Proof. unfold count_ones. lia. Qed.

Lemma In_one_nth (l : list Z) : In 1%Z l <-> exists k, nth k l 0%Z = 1%Z.
Proof.
  split.
  - intros H. apply (In_nth _ _ 0%Z) in H as (k & _ & E). eauto.
  - intros [k E]. destruct (Nat.lt_ge_cases k (List.length l)) as [H | H].
    + rewrite <- E. now apply nth_In.
    + rewrite nth_overflow in E by assumption. discriminate.
Qed.

(** ** The include matrix: the claims *)

Local Open Scope string_scope.
Local Open Scope list_scope.

(** C2.  After the fill pass of the builder the matrix has one row per
    user file and one cell per column in every row, and the cell of
    row [i] under column [k] is 1 exactly when the label of the column
    is in the user-include list or in the standard-library-include
    list of file [i]; every other cell is 0. *)
Theorem fill_marks_included_names :
  forall fs extract_filename files i k,
    let m := fst (build fs extract_filename files) in
    let includes := fst (_get_includes_of_file fs (nth i files EmptyString)) in
    let label := nth k (columns m) EmptyString in
    i < List.length files -> k < List.length (columns m) ->
    shape m = (List.length files, List.length (columns m))
    /\ well_shaped m
    /\ (cell m i k = 1%Z <-> In label (fst includes) \/ In label (snd includes))
    /\ (~ (In label (fst includes) \/ In label (snd includes)) -> cell m i k = 0%Z).
Proof.
  intros fs extract_filename files i k. cbn zeta. rewrite build_matrix.
  set (m1 := fold_left add_if_new (std_names fs files)
                       (_create_user_include_matrix extract_filename files)).
  intros Hi Hk.
  destruct (fill_from_spec fs files 0 m1 (grown_well_shaped fs extract_filename files))
    as (Hidx & Hcols & Hlen & Hws & Hcell).
  set (m := fst (fill_from fs 0 files m1)) in *.
  assert (Hrows : List.length (data m1) = List.length files).
  { subst m1. rewrite fold_add_data. cbn [_create_user_include_matrix data].
    unfold zeros. now rewrite length_map, repeat_length. }
  rewrite Hcols in Hk.
  specialize (Hcell i k ltac:(lia) Hk).
  assert (Hz : cell m1 i k = 0%Z) by apply grown_cells_zero.
  rewrite Hz in Hcell.
  rewrite Nat.sub_0_r in Hcell. cbn [Nat.leb andb Nat.add] in Hcell.
  replace (i <? List.length files)%nat with true in Hcell
    by (symmetry; now apply Nat.ltb_lt).
  cbn [andb] in Hcell. unfold names_of in Hcell. rewrite Hcols.
  set (label := nth k (columns m1) EmptyString) in *.
  set (inc := fst (_get_includes_of_file fs (nth i files EmptyString))) in *.
  assert (Hin : existsb (String.eqb label) (fst inc ++ snd inc) = true
                <-> In label (fst inc) \/ In label (snd inc))
    by (rewrite existsb_eqb_In; apply in_app_iff).
  split; [unfold shape; congruence|]. split; [assumption|].
  rewrite Hcell. destruct (existsb (String.eqb label) (fst inc ++ snd inc)).
  - split; [|intros H; exfalso; apply H, Hin; reflexivity].
    split; [intros _; now apply Hin | reflexivity].
  - split; [|reflexivity].
    split; [discriminate | intros H; apply Hin in H; discriminate].
Qed.

Lemma fill_marks_included_names_witness :
  let m := fst (build sample_fs (fun p => p) sample_files) in
  let includes := fst (_get_includes_of_file sample_fs (nth 2 sample_files EmptyString)) in
  let label := nth 3 (columns m) EmptyString in
  shape m = (List.length sample_files, List.length (columns m))
  /\ well_shaped m
  /\ (cell m 2 3 = 1%Z <-> In label (fst includes) \/ In label (snd includes))
  /\ (~ (In label (fst includes) \/ In label (snd includes)) -> cell m 2 3 = 0%Z).
Proof.
  apply (fill_marks_included_names sample_fs (fun p => p) sample_files 2 3);
    vm_compute; lia.
Defined.

(** C3.  The standard-library pass leaves the index and the rows of
    the matrix in place and appends to its columns the external names
    not yet among them, each once, in the order the scan first meets
    them: a file whose standard-library includes are all columns
    already leaves the matrix as it is, a name that is no column yet
    adds one column of zeros, and no label is repeated among the
    columns unless one was repeated before the pass. *)
Theorem add_stl_includes_columns :
  forall fs files m,
    let m' := fst (_add_stl_includes fs files m) in
    let external := new_names (columns m) (std_names fs files) in
    columns m' = columns m ++ external
    /\ NoDup external
    /\ (forall n, In n external <-> In n (std_names fs files) /\ ~ In n (columns m))
    /\ (NoDup (columns m) -> NoDup (columns m'))
    /\ index m' = index m
    /\ data m' = map (fun r => r ++ repeat 0%Z (List.length external)) (data m)
    /\ (forall file,
          (forall n, In n (snd (fst (_get_includes_of_file fs file))) ->
                     In n (columns m)) ->
          fst (add_stl_of_file fs m file) = m)
    /\ (forall n, ~ In n (columns m) ->
                  columns (add_if_new m n) = columns m ++ [n]
                  /\ data (add_if_new m n) = map (fun r => r ++ [0%Z]) (data m)).
Proof.
  intros fs files m. cbn zeta. rewrite add_stl_includes_fold.
  split; [apply fold_add_columns|].
  split; [apply firsts_NoDup|].
  split; [intros n; apply new_names_In|].
  split.
  { intros Hnd. rewrite fold_add_columns. apply NoDup_app.
    - exact Hnd.
    - apply firsts_NoDup.
    - intros n Hn Hn'. apply new_names_In in Hn'. tauto. }
  split; [apply fold_add_index|].
  split; [apply fold_add_data|].
  split.
  - intros file H. unfold add_stl_of_file.
    destruct (_get_includes_of_file fs file) as [[user stl] w]. cbn [fst snd] in *.
    now apply fold_add_known.
  - intros n Hn. unfold add_if_new.
    destruct (has_column m n) eqn:E; [apply has_column_In in E; contradiction|].
    split; reflexivity.
Qed.

Lemma add_stl_includes_columns_witness :
  columns (fst (_add_stl_includes sample_fs sample_files
                  (_create_user_include_matrix (fun p => p) sample_files)))
  = sample_files ++ ["vector"].
Proof.
  rewrite (proj1 (add_stl_includes_columns sample_fs sample_files
                    (_create_user_include_matrix (fun p => p) sample_files))).
  reflexivity.
Defined.

(** C4.  For every line the extractor finds a user include exactly
    when the line has the form of one (blanks, the keyword, the name
    between two quotes), a standard-library include exactly when it
    has the form of one (the name between angle brackets), with that
    name, and nothing exactly when it has neither form.  For every
    text of a file the two lists it returns are those its lines call
    for, in the order of the lines and with their repetitions, the
    lines being the pieces between the line feeds of the text; the
    file with [<vector>] and [helper.h] yields helper.h and vector. *)
Theorem get_includes_classifies :
  (forall line name,
      match_include line = Some (UserLib name) <-> user_form line name)
  /\ (forall line name,
        match_include line = Some (StdLib name) <-> std_form line name)
  /\ (forall line,
        match_include line = None <->
        (forall n, ~ user_form line n) /\ (forall n, ~ std_form line n))
  /\ (forall text,
        join_lines (split_lines text) = text
        /\ Forall (fun l => lacks newline l = true) (split_lines text))
  /\ (forall fs path text,
        read_file fs path = Some text ->
        exists user stl,
          _get_includes_of_file fs path = ((user, stl), [])
          /\ Classified (split_lines text) user stl
          /\ forall user' stl',
               Classified (split_lines text) user' stl' ->
               user' = user /\ stl' = stl)
  /\ _get_includes_of_file sample_fs "source.cpp" = ((["helper.h"], ["vector"]), []).
Proof.
  split; [exact match_include_user|].
  split; [exact match_include_std|].
  split; [exact match_include_none|].
  split; [intros text; split; [apply split_lines_join | apply split_lines_lack_newline]|].
  split; [|reflexivity].
  intros fs path text Hread. unfold _get_includes_of_file. rewrite Hread.
  pose proof (classify_Classified (split_lines text)) as H.
  destruct (classify (split_lines text)) as [user stl]. cbn [fst snd] in H.
  exists user, stl. split; [reflexivity|]. split; [assumption|].
  intros user' stl' H'. exact (Classified_functional _ _ _ _ _ H' H).
Qed.

Lemma get_includes_classifies_witness :
  exists user stl,
    _get_includes_of_file sample_fs "lib1.hpp" = ((user, stl), [])
    /\ Classified (split_lines (std_line "  " "vector")) user stl
    /\ forall user' stl',
         Classified (split_lines (std_line "  " "vector")) user' stl' ->
         user' = user /\ stl' = stl.
Proof.
  apply (proj1 (proj2 (proj2 (proj2 (proj2 get_includes_classifies))))
               sample_fs "lib1.hpp" (std_line "  " "vector")).
  reflexivity.
Defined.

(** ** Rounding never loses a number that is not zero *)

Section MoreRounding.
Local Open Scope Z_scope.

Lemma shifted_quotient_pos (mz : positive) (N : Z) (r : shr_record) :
  0 <= N -> N <= Zpos (digits2_pos mz) - 1 ->
  shifted (Zpos mz) N r -> 0 < shr_m r.
Proof.
  intros HN Hd (rem & Hrem & Hm & Hq & _).
  pose proof (digits2_lower mz) as Hl.
  assert (2 ^ N <= 2 ^ (Zpos (digits2_pos mz) - 1)) by (apply Z.pow_le_mono_r; lia).
  pose proof (pow2_pos N HN) as HX.
  remember (2 ^ N) as X. nia.
Qed.

Lemma binary_round_aux_nonzero (s : bool) (mz : positive) (ez : Z) :
  emin <= ez ->
  exists m e, binary_round_aux prec emax s (Zpos mz) ez loc_Exact = S754_finite s m e
              \/ binary_round_aux prec emax s (Zpos mz) ez loc_Exact = S754_infinity s.
Proof.
  intros Hez.
  unfold binary_round_aux, shr_fexp. cbn [shr_record_of_loc].
  set (n1 := fexp prec emax (Zdigits2 (Zpos mz) + ez) - ez).
  destruct (shr_shifted (Zpos mz) ez n1) as (r1 & E1 & S1); [lia|].
  rewrite E1. clear E1.
  assert (Hq1 : 0 < shr_m r1).
  { apply (shifted_quotient_pos mz (Z.max n1 0)); [lia | | exact S1].
    subst n1. unfold fexp, SpecFloat.emin, emax, prec in *. cbn [Zdigits2].
    pose proof (Pos2Z.is_pos (digits2_pos mz)). lia. }
  assert (He1 : emin <= ez + Z.max n1 0) by lia.
  set (e1 := ez + Z.max n1 0) in *.
  set (m1 := round_nearest_even (shr_m r1) (loc_of_shr_record r1)).
  assert (Hm1 : 0 < m1).
  { destruct (round_nearest_even_cases r1) as [E | [E _]]; fold m1 in E; lia. }
  clearbody m1. clear S1 Hq1 r1.
  destruct m1 as [| p1 | p1]; try lia.
  set (n2 := fexp prec emax (Zdigits2 (Zpos p1) + e1) - e1).
  destruct (shr_shifted (Zpos p1) e1 n2) as (r2 & E2 & S2); [lia|].
  rewrite E2. clear E2.
  assert (Hq2 : 0 < shr_m r2).
  { apply (shifted_quotient_pos p1 (Z.max n2 0)); [lia | | exact S2].
    subst n2. unfold fexp, SpecFloat.emin, emax, prec in *. cbn [Zdigits2].
    pose proof (Pos2Z.is_pos (digits2_pos p1)). lia. }
  destruct (shr_m r2) as [| m2 | m2]; try lia.
  exists m2, (e1 + Z.max n2 0).
  destruct (e1 + Z.max n2 0 <=? emax - prec); [now left | now right].
Qed.

Lemma binary_round_nonzero (s : bool) (mx : positive) (ex : Z) :
  emin <= ex ->
  exists m e, binary_round prec emax s mx ex = S754_finite s m e
              \/ binary_round prec emax s mx ex = S754_infinity s.
Proof.
  intros Hex. unfold binary_round.
  set (ex' := fexp prec emax (Zpos (digits2_pos mx) + ex)).
  assert (Hex' : emin <= ex') by (subst ex'; unfold fexp; lia).
  destruct (Z.le_gt_cases ex' ex) as [Hc | Hc].
  - destruct (shl_align_value mx ex ex' Hc) as [E _]. rewrite E.
    now apply binary_round_aux_nonzero.
  - assert (E : shl_align mx ex ex' = (mx, ex)).
    { unfold shl_align. destruct (ex' - ex) eqn:E; try reflexivity. lia. }
    rewrite E. now apply binary_round_aux_nonzero.
Qed.

Lemma binary_normalize_zero (m e : Z) (s : bool) :
  emin <= e -> binary_normalize prec emax m e false = S754_zero s -> m = 0.
Proof.
  intros He H. destruct m as [| p | p]; [reflexivity | |]; cbn [binary_normalize] in H.
  - destruct (binary_round_nonzero false p e He) as (m' & e' & [E | E]); congruence.
  - destruct (binary_round_nonzero true p e He) as (m' & e' & [E | E]); congruence.
Qed.

Lemma valid_exponent (s : bool) (m : positive) (e : Z) :
  valid_binary (S754_finite s m e) = true -> emin <= e.
Proof.
  unfold SpecFloat.valid_binary, bounded, canonical_mantissa, fexp.
  intros H. apply andb_prop in H as [H _]. apply Z.eqb_eq in H. lia.
Qed.

Lemma SFsub_one_zero (x : spec_float) (s : bool) :
  valid_binary x = true -> SFsub prec emax x SF1 = S754_zero s -> x = SF1.
Proof.
  intros Hv H. unfold SF1 in H.
  destruct x as [sx | sx | | sx mx ex]; cbn [SFsub] in H; try discriminate.
  - pose proof (valid_exponent _ _ _ Hv) as Hex.
    set (ez := Z.min ex (-52)) in *.
    apply binary_normalize_zero in H;
      [| subst ez; unfold SpecFloat.emin, emax, prec in *; lia].
    destruct (shl_align_value mx ex ez ltac:(lia)) as [_ Va].
    destruct (shl_align_value 4503599627370496 (-52) ez ltac:(lia)) as [_ Vb].
    set (a := fst (shl_align mx ex ez)) in *.
    set (b := fst (shl_align 4503599627370496 (-52) ez)) in *.
    destruct sx; cbn [cond_Zopp] in H; [lia|].
    assert (Eab : Zpos mx * 2 ^ (ex - ez) = 2 ^ 52 * 2 ^ (-52 - ez)).
    { rewrite <- Va. change (2 ^ 52) with 4503599627370496. rewrite <- Vb. lia. }
    unfold SpecFloat.valid_binary, bounded in Hv. apply andb_prop in Hv as [Hc _].
    apply canonical_digits in Hc as [Hd Hc].
    unfold prec, SpecFloat.emin, emax in *.
    pose proof (digits2_lower mx) as Hl. pose proof (digits2_upper mx) as Hu.
    destruct (Z.le_gt_cases ex (-52)) as [Hle | Hgt].
    + replace ez with ex in Eab by lia.
      rewrite Z.sub_diag, Z.mul_1_r, <- pow2_split in Eab by lia.
      replace (52 + (-52 - ex)) with (- ex) in Eab by lia.
      assert (Hdig : - ex < Zpos (digits2_pos mx)).
      { apply (Z.pow_lt_mono_r_iff 2); lia. }
      assert (ex = -52) by lia. subst ex.
      change (2 ^ (- (-52))) with 4503599627370496 in Eab.
      unfold SF1. congruence.
    + exfalso. replace ez with (-52) in Eab by lia.
      change (2 ^ (-52 - -52)) with 1 in Eab. rewrite Z.mul_1_r in Eab.
      assert (2 * Zpos mx <= 2 ^ 52).
      { rewrite <- Eab.
        assert (2 ^ 1 <= 2 ^ (ex - -52)) by (apply Z.pow_le_mono_r; lia).
        change (2 ^ 1) with 2 in *. nia. }
      assert (Zpos (digits2_pos mx) - 1 <= 51).
      { apply (Z.pow_le_mono_r_iff 2); [lia | lia |]. change (2 ^ 51) with 2251799813685248.
        change (2 ^ 52) with 4503599627370496 in *. lia. }
      lia.
Qed.

End MoreRounding.

Section MoreFloatFacts.
Local Open Scope float_scope.

Lemma SFcompare_refl (x : spec_float) : x <> S754_nan -> SFcompare x x = Some Eq.
Proof.
  destruct x as [[|] | [|] | | [|] m e]; intros H; try reflexivity; try congruence;
    cbn [SFcompare]; rewrite Z.compare_refl;
    change (Pos.compare_cont Eq m m) with (m ?= m)%positive;
    now rewrite Pos.compare_refl.
Qed.

Lemma is_nan_eq (x : float) : is_nan x = true <-> x = nan.
Proof.
  split.
  - unfold is_nan. rewrite eqb_spec. unfold SFeqb. intros H.
    apply Prim2SF_inj. change (Prim2SF nan) with S754_nan.
    destruct (Prim2SF x) eqn:E; try reflexivity;
      rewrite SFcompare_refl in H by discriminate; discriminate.
  - intros ->. reflexivity.
Qed.

Lemma abs_nan_or_nonneg (x : float) :
  PrimFloat.abs x = nan \/ (0 <=? PrimFloat.abs x) = true.
Proof.
  rewrite leb_spec, abs_spec. change (Prim2SF 0) with (S754_zero false).
  destruct (Prim2SF x) as [s | s | | s m e] eqn:E; try (right; reflexivity).
  left. apply Prim2SF_inj. rewrite abs_spec, E. reflexivity.
Qed.

Lemma SFeqb_zero (x : spec_float) :
  SFeqb x (S754_zero false) = true <-> exists s, x = S754_zero s.
Proof.
  destruct x as [s | [|] | | [|] m e]; cbn; split;
    try discriminate; try (intros [? H]; discriminate); eauto.
Qed.

Lemma SFeqb_finite_pos (m m' : positive) (e e' : Z) :
  SFeqb (S754_finite false m e) (S754_finite false m' e') = true ->
  e = e' /\ m = m'.
Proof.
  unfold SFeqb, SFcompare.
  change (Pos.compare_cont Eq m m') with (m ?= m')%positive.
  destruct (Z.compare_spec e e') as [E | E | E]; try discriminate.
  destruct (Pos.compare_spec m m') as [Em | Em | Em]; try discriminate.
  now split.
Qed.

Lemma SFeqb_one (x : spec_float) : SFeqb x SF1 = true <-> x = SF1.
Proof.
  split.
  - unfold SF1. destruct x as [[|] | [|] | | [|] m e]; try discriminate.
    intros H. apply SFeqb_finite_pos in H as [-> ->]. reflexivity.
  - intros ->. reflexivity.
Qed.

Lemma sub_one_eq_zero (x : float) : (x - 1 =? 0) = true <-> (x =? 1) = true.
Proof.
  rewrite !eqb_spec, sub_spec.
  change (Prim2SF 0) with (S754_zero false). change (Prim2SF 1) with SF1.
  rewrite SFeqb_zero, SFeqb_one. split.
  - intros [s H]. apply (SFsub_one_zero _ s); [apply Prim2SF_valid | exact H].
  - intros ->. exists false. reflexivity.
Qed.

Lemma abs_eq_zero (x : float) : (PrimFloat.abs x =? 0) = true <-> (x =? 0) = true.
Proof.
  rewrite !eqb_spec, abs_spec. change (Prim2SF 0) with (S754_zero false).
  rewrite !SFeqb_zero. destruct (Prim2SF x) as [s | s | | s m e]; cbn [SFabs];
    split; intros [s' H]; try discriminate; eauto.
Qed.

Lemma distance_zero_iff (a i : float) :
  (PrimFloat.abs (a + i - 1) =? 0) = true <-> (a + i =? 1) = true.
Proof. rewrite abs_eq_zero. apply sub_one_eq_zero. Qed.

End MoreFloatFacts.

(** ** The instability metric *)

Local Close Scope string_scope.

Section Counting.

Lemma count_ones_filter (l : list Z) :
  count_ones l = Z.of_nat (List.length (filter (fun x => Z.eqb x 1) l)).
Proof.
  unfold count_ones. f_equal.
  induction l as [| x l IH]; simpl; [reflexivity|].
  destruct (Z.eq_dec x 1) as [E | E].
  - subst. simpl. now rewrite IH.
  - replace (x =? 1)%Z with false by (symmetry; now apply Z.eqb_neq). exact IH.
Qed.

Lemma map_nth_all {A : Type} (l : list A) (d : A) :
  map (fun k => nth k l d) (seq 0 (List.length l)) = l.
Proof.
  induction l as [| x l IH]; simpl; [reflexivity|].
  f_equal. rewrite <- seq_shift, map_map. exact IH.
Qed.

Lemma filter_map_length {A B : Type} (p : B -> bool) (f : A -> B) (l : list A) :
  List.length (filter (fun x => p (f x)) l) = List.length (filter p (map f l)).
Proof.
  induction l as [| x l IH]; simpl; [reflexivity|].
  destruct (p (f x)); simpl; now rewrite IH.
Qed.

Lemma fan_out_ones (m : DataFrame) (i : nat) :
  fan_out m i = Z.of_nat (ones_in_row m i).
Proof.
  unfold fan_out, ones_in_row, cell. rewrite count_ones_filter. f_equal.
  rewrite (filter_map_length (fun x => Z.eqb x 1)
             (fun k => nth k (nth i (data m) []) 0%Z)).
  now rewrite map_nth_all.
Qed.

Lemma fan_in_ones (m : DataFrame) (i : nat) :
  fan_in m i = Z.of_nat (ones_in_column m i).
Proof.
  unfold fan_in, ones_in_column, cell. rewrite count_ones_filter. f_equal.
  rewrite (filter_map_length (fun x => Z.eqb x 1)
             (fun j => nth i (nth j (data m) []) 0%Z)).
  rewrite <- (map_map (fun j => nth j (data m) []) (fun r => nth i r 0%Z)).
  now rewrite map_nth_all.
Qed.

End Counting.

Section Division.

Local Open Scope Z_scope.

Lemma Z2float_primitive (z : Z) :
  0 <= z < 2 ^ 63 -> Z2float z = float_of_int z.
Proof.
  intros H. unfold Z2float, float_of_int.
  rewrite <- (SF2Prim_Prim2SF (of_uint63 (Uint63.of_Z z))). f_equal.
  rewrite of_uint63_spec, Uint63.of_Z_spec.
  rewrite Z.mod_small; [reflexivity|]. exact H.
Qed.

Lemma float_of_int_finite (z : Z) :
  0 < z < 2 ^ 63 ->
  exists m e, Prim2SF (float_of_int z) = S754_finite false m e.
Proof.
  intros H. unfold float_of_int.
  rewrite of_uint63_spec, Uint63.of_Z_spec, Z.mod_small by (change Uint63.wB with (2 ^ 63); lia).
  destruct z as [| p | p]; try lia. cbn [binary_normalize].
  destruct (binary_round_le false p 0 63) as [E | (m & e & E & _)].
  - unfold SpecFloat.emin, emax, prec. lia.
  - rewrite Z.sub_0_r. lia.
  - destruct (binary_round_nonzero false p 0) as (m & e & [E' | E']);
      [unfold SpecFloat.emin, emax, prec; lia | congruence | congruence].
  - eauto.
Qed.

Lemma div_eucl_mul (a b : Z) : 0 < a -> Z.div_eucl (b * a) a = (b, 0).
Proof.
  intros Ha. pose proof (Z.div_mul b a ltac:(lia)) as Hq.
  pose proof (Z.mod_mul b a ltac:(lia)) as Hr.
  unfold Z.div, Z.modulo in *. destruct (Z.div_eucl (b * a) a) as [q r].
  now subst.
Qed.

Lemma SFdiv_self (s : bool) (m : positive) (e : Z) :
  SFdiv prec emax (S754_finite s m e) (S754_finite s m e) = SF1.
Proof.
  cbn [SFdiv]. unfold SFdiv_core_binary.
  replace (Zdigits2 (Zpos m) + e - (Zdigits2 (Zpos m) + e)) with 0 by lia.
  rewrite Z.sub_diag.
  change (Z.min (fexp prec emax 0) 0) with (-53).
  change (0 - -53) with 53.
  rewrite Z.shiftl_mul_pow2 by lia.
  rewrite (Z.mul_comm (Zpos m)), div_eucl_mul by lia.
  assert (El : new_location (Zpos m) 0 = loc_Exact).
  { unfold new_location, new_location_even, new_location_odd.
    now destruct (Z.even (Zpos m)). }
  rewrite El. rewrite xorb_nilpotent. now vm_compute.
Qed.

Local Open Scope float_scope.

Lemma zero_div_count (s : Z) :
  (0 < s < 2 ^ 63)%Z -> float_of_int 0 / float_of_int s = 0.
Proof.
  intros H. apply Prim2SF_inj. rewrite div_spec.
  destruct (float_of_int_finite s H) as (m & e & E). rewrite E.
  reflexivity.
Qed.

Lemma self_div_count (s : Z) :
  (0 < s < 2 ^ 63)%Z -> float_of_int s / float_of_int s = 1.
Proof.
  intros H. apply Prim2SF_inj. rewrite div_spec.
  destruct (float_of_int_finite s H) as (m & e & E). rewrite E.
  unfold SF64div. rewrite SFdiv_self. reflexivity.
Qed.

End Division.

Local Open Scope string_scope.
Local Open Scope list_scope.

(** C6.  The instability series has one entry per row of the matrix,
    under the label of the row, holding fan-out over fan-in plus
    fan-out: fan-out is the number of ones among the cells of the row,
    fan-in the number of ones in the column of the same position over
    the rows, and the value is the [float64] quotient of the two
    integers.  Both counts are 0 exactly when no cell of that row and
    no cell of that column is 1, and the entry is then the number 0,
    not NaN; without outgoing ones it is 0, and without incoming ones
    it is 1. *)
Theorem instability_formula :
  forall m i,
    i < List.length (data m) ->
    let fi := fan_in m i in
    let fo := fan_out m i in
    nth_error (instability m) i
    = Some (LStr (nth i (index m) EmptyString), ratio fi fo)
    /\ List.length (instability m) = List.length (data m)
    /\ (0 <= fi)%Z /\ (0 <= fo)%Z
    /\ fo = Z.of_nat (ones_in_row m i)
    /\ fi = Z.of_nat (ones_in_column m i)
    /\ ((fi + fo)%Z <> 0%Z ->
        ratio fi fo = (Z2float fo / Z2float (fi + fo))%float)
    /\ ((fi + fo)%Z <> 0%Z -> (fi + fo < 2 ^ 63)%Z ->
        ratio fi fo = (float_of_int fo / float_of_int (fi + fo))%float)
    /\ ((fi + fo)%Z = 0%Z <->
        (forall k, cell m i k <> 1%Z) /\ (forall j, cell m j i <> 1%Z))
    /\ ((fi + fo)%Z = 0%Z ->
        ratio fi fo = 0%float /\ is_nan (ratio fi fo) = false)
    /\ (fo = 0%Z -> (fi < 2 ^ 63)%Z -> ratio fi fo = 0%float)
    /\ (fi = 0%Z -> (0 < fo < 2 ^ 63)%Z -> ratio fi fo = 1%float).
Proof.
  intros m i Hi. cbn zeta.
  pose proof (count_ones_nonneg (nth i (data m) [])) as Ho.
  pose proof (count_ones_nonneg (map (fun r => nth i r 0%Z) (data m))) as Hn.
  fold (fan_out m i) in Ho. fold (fan_in m i) in Hn.
  split.
  { unfold instability. rewrite nth_error_map, nth_error_nth' with (d := 0)
      by now rewrite length_seq.
    now rewrite seq_nth. }
  split; [unfold instability; now rewrite length_map, length_seq|].
  split; [assumption|]. split; [assumption|].
  split; [apply fan_out_ones|]. split; [apply fan_in_ones|].
  assert (Hquot : (fan_in m i + fan_out m i)%Z <> 0%Z ->
                  ratio (fan_in m i) (fan_out m i)
                  = (Z2float (fan_out m i) / Z2float (fan_in m i + fan_out m i))%float).
  { intros H. unfold ratio. destruct (Z.eqb_spec (fan_in m i + fan_out m i) 0);
      [contradiction | reflexivity]. }
  split; [exact Hquot|].
  assert (Hprim : (fan_in m i + fan_out m i)%Z <> 0%Z ->
                  (fan_in m i + fan_out m i < 2 ^ 63)%Z ->
                  ratio (fan_in m i) (fan_out m i)
                  = (float_of_int (fan_out m i)
                     / float_of_int (fan_in m i + fan_out m i))%float).
  { intros H Hb. rewrite (Hquot H), !Z2float_primitive by lia. reflexivity. }
  split; [exact Hprim|].
  split.
  { unfold fan_in, fan_out, cell in *.
    split.
    - intros H.
      assert (Eo : count_ones (nth i (data m) []) = 0%Z) by lia.
      assert (En : count_ones (map (fun r => nth i r 0%Z) (data m)) = 0%Z) by lia.
      apply count_ones_zero in Eo, En. split.
      + intros k E. apply Eo, In_one_nth. eauto.
      + intros j E. apply En.
        destruct (Nat.lt_ge_cases j (List.length (data m))) as [Hj | Hj].
        * rewrite <- E. apply in_map_iff. exists (nth j (data m) []).
          split; [reflexivity | now apply nth_In].
        * rewrite (nth_overflow (data m)) in E by assumption.
          now destruct i.
    - intros [Hrow Hcol].
      assert (Eo : count_ones (nth i (data m) []) = 0%Z).
      { apply count_ones_zero. intros H. apply In_one_nth in H as [k E].
        now apply (Hrow k). }
      assert (En : count_ones (map (fun r => nth i r 0%Z) (data m)) = 0%Z).
      { apply count_ones_zero. intros H. apply in_map_iff in H as (r & E & Hr).
        apply (In_nth _ _ []) in Hr as (j & _ & Ej). subst r.
        now apply (Hcol j). }
      lia. }
  split.
  { intros H. unfold ratio. rewrite H. cbn. split; reflexivity. }
  split.
  - intros Hfo Hb. destruct (Z.eq_dec (fan_in m i) 0) as [E | E].
    + unfold ratio. rewrite E, Hfo. reflexivity.
    + rewrite Hprim by lia. rewrite Hfo, Z.add_0_r. apply zero_div_count. lia.
  - intros Hfi Hb. rewrite Hprim by lia. rewrite Hfi, Z.add_0_l.
    now apply self_div_count.
Qed.

Lemma instability_formula_witness :
  let m := fst (build sample_fs (fun p => p) sample_files) in
  let fi := fan_in m 1 in
  let fo := fan_out m 1 in
  nth_error (instability m) 1
  = Some (LStr (nth 1 (index m) EmptyString), ratio fi fo)
  /\ List.length (instability m) = List.length (data m)
  /\ (0 <= fi)%Z /\ (0 <= fo)%Z
  /\ fo = Z.of_nat (ones_in_row m 1)
  /\ fi = Z.of_nat (ones_in_column m 1)
  /\ ((fi + fo)%Z <> 0%Z ->
      ratio fi fo = (Z2float fo / Z2float (fi + fo))%float)
  /\ ((fi + fo)%Z <> 0%Z -> (fi + fo < 2 ^ 63)%Z ->
      ratio fi fo = (float_of_int fo / float_of_int (fi + fo))%float)
  /\ ((fi + fo)%Z = 0%Z <->
      (forall k, cell m 1 k <> 1%Z) /\ (forall j, cell m j 1 <> 1%Z))
  /\ ((fi + fo)%Z = 0%Z ->
      ratio fi fo = 0%float /\ is_nan (ratio fi fo) = false)
  /\ (fo = 0%Z -> (fi < 2 ^ 63)%Z -> ratio fi fo = 0%float)
  /\ (fi = 0%Z -> (0 < fo < 2 ^ 63)%Z -> ratio fi fo = 1%float).
Proof.
  apply (instability_formula (fst (build sample_fs (fun p => p) sample_files)) 1).
  vm_compute. lia.
Defined.

(** The worked scenario of the spec, the files of
    [testCheckMatrixIfIncludes]: the matrix is 3 by 5; counting every
    one of a row and of a column, the file that includes itself alone
    has fan-out 1 and fan-in 2, the last file fan-out 3 and fan-in 1,
    and the instabilities are 1, 1/3 and 0.75. *)
Lemma scenario_instability :
  let m := fst (build scenario_fs (fun p => p) scenario_files) in
  shape m = (3, 5)
  /\ map (fan_out m) [0; 1; 2] = [1; 1; 3]%Z
  /\ map (fan_in m) [0; 1; 2] = [0; 2; 1]%Z
  /\ values (instability m) = [1; 0x1.5555555555555p-2; 0.75]%float.
Proof. vm_compute. repeat split; reflexivity. Qed.

(** * Further properties of the code *)

(** ** [DistanceIA]: what is plotted *)

Lemma dedup_NoDup (ls : list label) : NoDup (dedup ls).
Proof.
  induction ls as [| l ls IH]; simpl; constructor.
  - rewrite filter_In. intros [_ H]. now rewrite label_eqb_refl in H.
  - now apply NoDup_filter.
Qed.

Lemma arange_length (n : nat) : List.length (arange n) = n.
Proof. unfold arange. now rewrite length_map, length_seq. Qed.

Lemma arange_nth (n k : nat) :
  k < n -> nth_error (arange n) k = Some (Z.of_nat k).
Proof.
  intros H. unfold arange. rewrite nth_error_map.
  rewrite (nth_error_nth' _ 0) by now rewrite length_seq.
  now rewrite seq_nth.
Qed.

Lemma distance_size_aligned (index_union : list label -> list label -> list label)
      (a i : Series) :
  Pandas.index a = Pandas.index i -> size (distance index_union a i) = size i.
Proof.
  intros H. rewrite distance_aligned by assumption.
  pose proof (elementwise_index a i H) as E.
  apply (f_equal (@List.length label)) in E. unfold Pandas.index in E.
  now rewrite !length_map in E.
Qed.

(** X3.  What [plot_distance] plots: four calls in the order plot,
    xticks, ylabel, show; the distance against the positions 0, 1, ...
    with crosses and no line; the ticks at the same positions, labelled
    with the index of the instability metric.  When the two metrics are
    aligned there are as many positions as labels, one per file, and
    position [k] is the number [k]. *)
Theorem plot_distance_calls :
  forall index_union dsu self,
    Pandas.index (snd (dsu (_dir_path self))) = Pandas.index (fst (dsu (_dir_path self))) ->
    let i := fst (dsu (_dir_path self)) in
    let d := distance index_union (snd (dsu (_dir_path self))) i in
    exists self' ind,
      plot_distance index_union dsu self
      = Returned (self',
                  [ plt_plot ind d "x" "None";
                    plt_xticks ind (Pandas.index i) 45 "right";
                    plt_ylabel "[D]istance" 18;
                    plt_show ])
      /\ List.length ind = size i
      /\ List.length ind = List.length (Pandas.index i)
      /\ size d = size i
      /\ forall k, k < size i -> nth_error ind k = Some (Z.of_nat k).
Proof.
  intros index_union dsu self H. cbn zeta. unfold plot_distance.
  destruct (dsu (_dir_path self)) as [i a]. cbn [fst snd] in *. cbn.
  pose proof (distance_size_aligned index_union a i H) as Hs.
  do 2 eexists. split; [reflexivity|].
  rewrite arange_length, Hs.
  split; [reflexivity|]. split; [unfold size, Pandas.index; now rewrite length_map|].
  split; [reflexivity|]. intros k Hk. now apply arange_nth.
Qed.

Lemma plot_distance_calls_witness :
  exists self' ind,
    plot_distance union_left_first (fun _ => (mocked_i_metric, mocked_a_metric))
                  (__init__ "")
    = Returned (self',
                [ plt_plot ind
                    (distance union_left_first mocked_a_metric mocked_i_metric)
                    "x" "None";
                  plt_xticks ind (Pandas.index mocked_i_metric) 45 "right";
                  plt_ylabel "[D]istance" 18;
                  plt_show ])
    /\ List.length ind = size mocked_i_metric
    /\ List.length ind = List.length (Pandas.index mocked_i_metric)
    /\ size (distance union_left_first mocked_a_metric mocked_i_metric)
       = size mocked_i_metric
    /\ forall k, k < size mocked_i_metric -> nth_error ind k = Some (Z.of_nat k).
Proof.
  apply (plot_distance_calls union_left_first
           (fun _ => (mocked_i_metric, mocked_a_metric)) (__init__ "")).
  reflexivity.
Defined.

(** X4.  When the abstractness metric has a label that the instability
    metric lacks (no label repeated in either, the union listing each
    label once), [plot_distance] hands [plt.xticks] more tick positions
    than tick labels: the positions follow the distance, the labels
    the instability metric alone. *)
Theorem plot_distance_misaligned_ticks :
  forall index_union dsu self l,
    (forall xs ys k, In k (index_union xs ys) <-> In k xs \/ In k ys) ->
    (forall xs ys, NoDup (index_union xs ys)) ->
    NoDup (Pandas.index (fst (dsu (_dir_path self)))) ->
    In l (Pandas.index (snd (dsu (_dir_path self)))) ->
    ~ In l (Pandas.index (fst (dsu (_dir_path self)))) ->
    exists self' calls ind labels,
      plot_distance index_union dsu self = Returned (self', calls)
      /\ xticks_of calls = Some (ind, labels)
      /\ List.length labels < List.length ind.
Proof.
  intros index_union dsu self l Hu Hnd Hi Hl Hnl. unfold plot_distance.
  destruct (dsu (_dir_path self)) as [i a]. cbn [fst snd] in *. cbn.
  do 4 eexists. split; [reflexivity|]. split; [reflexivity|].
  rewrite arange_length.
  assert (Hneq : Pandas.index a <> Pandas.index i) by (intros E; rewrite E in Hl; contradiction).
  rewrite (distance_misaligned index_union a i Hneq).
  unfold size. rewrite length_map.
  set (u := index_union (Pandas.index a) (Pandas.index i)).
  assert (Hincl : incl (l :: Pandas.index i) u).
  { intros k [<- | Hk]; apply Hu; [now left | now right]. }
  apply (NoDup_incl_length (l := l :: Pandas.index i) (l' := u)) in Hincl.
  - cbn [List.length] in Hincl. lia.
  - now constructor.
Qed.

Lemma plot_distance_misaligned_ticks_witness :
  exists self' calls ind labels,
    plot_distance union_left_first (fun _ => (labelled_i_metric, mocked_a_metric))
                  (__init__ "")
    = Returned (self', calls)
    /\ xticks_of calls = Some (ind, labels)
    /\ List.length labels < List.length ind.
Proof.
  apply (plot_distance_misaligned_ticks union_left_first
           (fun _ => (labelled_i_metric, mocked_a_metric)) (__init__ "") (LInt 0)).
  - apply union_left_first_In.
  - intros xs ys. apply dedup_NoDup.
  - vm_compute. repeat constructor; simpl; intuition discriminate.
  - vm_compute. now left.
  - vm_compute. intuition discriminate.
Defined.

(** ** The distance value by value *)

Section DistanceValues.

Local Open Scope float_scope.

Variable index_union : list label -> list label -> list label.

Lemma distance_values_abs (a i : Series) :
  Forall (fun v => exists x, v = PrimFloat.abs x) (values (distance index_union a i)).
Proof.
  unfold distance, Pandas.abs, values. rewrite map_map. cbn [snd].
  apply Forall_map, Forall_forall. intros lv _. eauto.
Qed.

End DistanceValues.

Local Open Scope float_scope.

(** X5.  No value of the distance is below zero: on any two series,
    aligned or not, every value is NaN or at least 0. *)
Theorem distance_nan_or_nonneg :
  forall index_union a i,
    Forall nan_or_nonneg (values (distance index_union a i)).
Proof.
  intros index_union a i.
  eapply Forall_impl; [| apply distance_values_abs].
  intros v [x ->]. apply abs_nan_or_nonneg.
Qed.

(** X6.  On aligned series a NaN in either metric at a position makes
    the distance NaN at that position. *)
Theorem distance_nan_propagates :
  forall index_union a i k x y,
    Pandas.index a = Pandas.index i ->
    nth_error (values a) k = Some x ->
    nth_error (values i) k = Some y ->
    is_nan x = true \/ is_nan y = true ->
    nth_error (values (distance index_union a i)) k = Some nan.
Proof.
  intros index_union a i k x y Hidx Hx Hy Hnan.
  rewrite distance_aligned by assumption.
  rewrite (elementwise_nth a i k x y Hx Hy). f_equal.
  destruct Hnan as [H | H]; apply is_nan_eq in H; subst.
  - now rewrite float_add_nan_l, float_sub_nan_l.
  - now rewrite float_add_nan_r, float_sub_nan_l.
Qed.

Lemma distance_nan_propagates_witness :
  nth_error
    (values (distance union_left_first
                      (of_values [0.3; nan]) (of_values [0.6; 0.5]))) 1
  = Some nan.
Proof.
  apply (distance_nan_propagates union_left_first
           (of_values [0.3; nan]) (of_values [0.6; 0.5]) 1 nan 0.5).
  - reflexivity.
  - reflexivity.
  - reflexivity.
  - left. reflexivity.
Defined.

(** X7.  On aligned series the distance at a position is [==] to 0
    exactly when abstractness plus instability is [==] to 1 there: the
    file lies on the Main Sequence. *)
Theorem distance_zero_on_main_sequence :
  forall index_union a i k x y,
    Pandas.index a = Pandas.index i ->
    nth_error (values a) k = Some x ->
    nth_error (values i) k = Some y ->
    exists d,
      nth_error (values (distance index_union a i)) k = Some d
      /\ ((d =? 0) = true <-> (x + y =? 1) = true).
Proof.
  intros index_union a i k x y Hidx Hx Hy.
  rewrite distance_aligned by assumption.
  rewrite (elementwise_nth a i k x y Hx Hy).
  eexists. split; [reflexivity | apply distance_zero_iff].
Qed.

Lemma distance_zero_on_main_sequence_witness :
  exists d,
    nth_error (values (distance union_left_first mocked_a_metric mocked_i_metric)) 1
    = Some d
    /\ ((d =? 0) = true <-> (1.0 + 0.0 =? 1) = true).
Proof.
  apply (distance_zero_on_main_sequence union_left_first
           mocked_a_metric mocked_i_metric 1 1.0 0.0); reflexivity.
Defined.

Local Close Scope float_scope.

(** ** The matrix passes on files without includes *)

(** X8.  When no file yields an include, as when the extractor is
    mocked to return two empty lists in [testCheckMatrixIfNoIncludes],
    the fill pass returns the matrix it was given. *)
Theorem fill_without_includes :
  forall fs files m,
    (forall f, In f files -> fst (_get_includes_of_file fs f) = ([], [])) ->
    fst (_fill_include_matrix fs files m) = m.
Proof.
  intros fs files m. unfold _fill_include_matrix. generalize 0.
  induction files as [| f files IH]; intros n H; [reflexivity|].
  cbn [fill_from].
  pose proof (H f (or_introl eq_refl)) as Hf.
  destruct (_get_includes_of_file fs f) as [[user stl] w]. cbn [fst] in Hf.
  inversion Hf; subst. cbn [app fold_left].
  specialize (IH (S n) (fun g Hg => H g (or_intror Hg))).
  destruct (fill_from fs (S n) files m). exact IH.
Qed.

Lemma fill_without_includes_witness :
  fst (_fill_include_matrix sample_fs ["a.hpp"; "b.hpp"]
         (_create_user_include_matrix (fun p => p) ["a.hpp"; "b.hpp"]))
  = _create_user_include_matrix (fun p => p) ["a.hpp"; "b.hpp"].
Proof.
  apply (fill_without_includes sample_fs ["a.hpp"; "b.hpp"]).
  intros f [<- | [<- | []]]; reflexivity.
Defined.

(** X9.  When no file yields a standard-library include, as in
    [testEmtpyStlIncludes], the growth pass returns the matrix it was
    given: no column is added and no cell changes. *)
Theorem add_stl_without_includes :
  forall fs files m,
    (forall f, In f files -> snd (fst (_get_includes_of_file fs f)) = []) ->
    fst (_add_stl_includes fs files m) = m.
Proof.
  intros fs files m H. rewrite add_stl_includes_fold.
  replace (std_names fs files) with (@nil string); [reflexivity|].
  unfold std_names. induction files as [| f files IH]; [reflexivity|].
  cbn [flat_map]. rewrite (H f (or_introl eq_refl)).
  apply IH. intros g Hg. apply H. now right.
Qed.

Lemma add_stl_without_includes_witness :
  fst (_add_stl_includes sample_fs ["lib2.hpp"; "b.hpp"]
         (_create_user_include_matrix (fun p => p) ["lib2.hpp"; "b.hpp"]))
  = _create_user_include_matrix (fun p => p) ["lib2.hpp"; "b.hpp"].
Proof.
  apply (add_stl_without_includes sample_fs ["lib2.hpp"; "b.hpp"]).
  intros f [<- | [<- | []]]; reflexivity.
Defined.
